(** * ControlNet encoder on a multi-camera DiT: a shallow embedding

    Source: [cosmos_transfer1/diffusion/training/networks/general_dit_ctrl_enc_multicamera.py]
    (classes [GeneralDITMulticamEncoder] and [VideoExtendGeneralDITMulticamEncoder]).

    The model follows the Python text: exceptions are an error monad, the
    attributes of [self], the torch/numpy random generators and the
    autograd switch are an explicit state, tensors are nested arrays whose
    entries are exact integers (standing for the floating point entries of
    the source: the algebra used below, [0 * a = 0] and [a + 0 = a], is the
    one of finite floats). *)

From Stdlib Require Import ZArith QArith Ascii.
From stdpp Require Import base option list strings pretty gmap.

Local Open Scope Z_scope.
Set Warnings "-register-all".

(** ** Exceptions and the error monad *)

Inductive exn : Type :=
| KeyError | AssertionError | ValueError | IndexError | TypeError
| AttributeError | RuntimeError | NotImplementedError | ZeroDivisionError.

Inductive result (A : Type) : Type :=
| Ok (a : A)
| Raise (e : exn).
Arguments Ok {A} a.
Arguments Raise {A} e.

#[global] Instance result_ret : MRet result := fun _ a => Ok a.
#[global] Instance result_bind : MBind result := fun _ _ f m =>
  match m with Ok a => f a | Raise e => Raise e end.
#[global] Instance result_fmap : FMap result := fun _ _ f m =>
  match m with Ok a => Ok (f a) | Raise e => Raise e end.

Definition is_ok {A} (r : result A) : bool :=
  match r with Ok _ => true | Raise _ => false end.

(** [assert c] is Python's [assert]: it raises [AssertionError] when [c] is false. *)
Definition assert (c : bool) : result unit :=
  if c then Ok tt else Raise AssertionError.

(** Sequencing a list of computations, stopping at the first exception. *)
Fixpoint collect {A} (l : list (result A)) : result (list A) :=
  match l with
  | [] => Ok []
  | r :: rs => a ← r; as_ ← collect rs; Ok (a :: as_)
  end.

(** ** Tensors

    A tensor is a nested array: [Sc z] is a 0-dimensional tensor, [Ax l] adds
    a leading axis.  The shape is read along the first element of each axis,
    as it is for the rectangular arrays torch builds. *)

Inductive tensor : Type :=
| Sc (z : Z)
| Ax (l : list tensor).

Fixpoint shape (t : tensor) : list nat :=
  match t with
  | Sc _ => []
  | Ax l => length l :: match l with [] => [] | x :: _ => shape x end
  end.

Definition ndim (t : tensor) : nat := length (shape t).

(** [t.size(d)]: [IndexError] when [d] is not an axis of [t]. *)
Definition size (t : tensor) (d : nat) : result nat :=
  match shape t !! d with Some n => Ok n | None => Raise IndexError end.

Fixpoint tmap (f : Z → Z) (t : tensor) : tensor :=
  match t with
  | Sc z => Sc (f z)
  | Ax l => Ax (map (tmap f) l)
  end.


(** [torch.zeros] of shape [s]. *)
Fixpoint zeros (s : list nat) : tensor :=
  match s with
  | [] => Sc 0
  | n :: s' => Ax (replicate n (zeros s'))
  end.

(** Pairing two axes of equal length; [RuntimeError] (a shape mismatch) otherwise. *)
Fixpoint zip_exact {A B C} (f : A → B → result C) (la : list A) (lb : list B)
  : result (list C) :=
  match la, lb with
  | [], [] => Ok []
  | a :: la', b :: lb' => c ← f a b; cs ← zip_exact f la' lb'; Ok (c :: cs)
  | _, _ => Raise RuntimeError
  end.

Definition apply_zip {A B} (gs : list (A → result B)) (ys : list A)
  : result (list B) :=
  zip_exact (fun g y => g y) gs ys.

(** Entrywise operation on two tensors of the same shape (no broadcasting). *)
Fixpoint tzip (f : Z → Z → Z) (a b : tensor) {struct a} : result tensor :=
  match a, b with
  | Sc x, Sc y => Ok (Sc (f x y))
  | Ax la, Ax lb => Ax <$> apply_zip (map (tzip f) la) lb
  | _, _ => Raise RuntimeError
  end.

(** Entrywise operation with torch's broadcasting on tensors of equal rank:
    along each axis the extents agree, or one of them is 1 and is repeated. *)
Fixpoint bzip (f : Z → Z → Z) (a b : tensor) {struct a} : result tensor :=
  match a, b with
  | Sc x, Sc y => Ok (Sc (f x y))
  | Ax la, Ax lb =>
      if decide (length la = length lb)
      then Ax <$> apply_zip (map (bzip f) la) lb
      else match la, lb with
           | [x], _ => Ax <$> collect (map (bzip f x) lb)
           | _, [y] => Ax <$> collect (map (fun x => bzip f x y) la)
           | _, _ => Raise RuntimeError
           end
  | _, _ => Raise RuntimeError
  end.

(** The operand of lower rank is aligned with the trailing axes of the other. *)
Fixpoint lift_right (k : nat) (f : Z → Z → Z) (a b : tensor) : result tensor :=
  match k with
  | O => bzip f a b
  | S k' =>
      match a with
      | Ax l => Ax <$> collect (map (fun x => lift_right k' f x b) l)
      | Sc _ => Raise RuntimeError
      end
  end.

Definition bop (f : Z → Z → Z) (a b : tensor) : result tensor :=
  if decide (ndim b ≤ ndim a)%nat
  then lift_right (ndim a - ndim b) f a b
  else lift_right (ndim b - ndim a) (fun y x => f x y) b a.

(** [a + b] and [a * b] on tensors. *)
Definition tadd : tensor → tensor → result tensor := bop Z.add.
Definition tmul : tensor → tensor → result tensor := bop Z.mul.

(** [t * c] for a Python number [c]. *)
Definition tscale (t : tensor) (c : Z) : tensor := tmap (fun z => z * c) t.

(** [torch.cat([a, b], dim=d)]: the other extents have to agree (an operand
    that is empty along [d] is accepted as it is). *)
Fixpoint cat (d : nat) (a b : tensor) {struct a} : result tensor :=
  match a, b with
  | Ax la, Ax lb =>
      match d with
      | O => if decide (la = [] ∨ lb = [] ∨ tail (shape a) = tail (shape b))
             then Ok (Ax (la ++ lb)) else Raise RuntimeError
      | S d' => Ax <$> apply_zip (map (cat d') la) lb
      end
  | _, _ => Raise RuntimeError
  end.

(** [torch.cat(ts, dim=d)] for a non-empty list. *)
Fixpoint cat_list (d : nat) (t : tensor) (ts : list tensor) : result tensor :=
  match ts with
  | [] => Ok t
  | u :: us => tu ← cat d t u; cat_list d tu us
  end.

(** [t.narrow(d, start, len)], the slice [start : start+len] along axis [d]
    (a Python slice is clipped to the extent of the axis). *)
Fixpoint narrow (d start len : nat) (t : tensor) : result tensor :=
  match t with
  | Sc _ => Raise IndexError
  | Ax l =>
      match d with
      | O => Ok (Ax (take len (drop start l)))
      | S d' => Ax <$> collect (map (narrow d' start len) l)
      end
  end.

(** [t.select(d, i)], the index [i] along axis [d]; the axis disappears. *)
Fixpoint select (d i : nat) (t : tensor) : result tensor :=
  match t with
  | Sc _ => Raise IndexError
  | Ax l =>
      match d with
      | O => match l !! i with Some x => Ok x | None => Raise IndexError end
      | S d' => Ax <$> collect (map (select d' i) l)
      end
  end.

(** [torch.chunk(t, n, dim=d)]: pieces of [ceil(size/n)] entries along [d],
    the last one possibly shorter; [n] has to be positive. *)
Definition chunk (t : tensor) (n d : nat) : result (list tensor) :=
  sz ← size t d;
  if decide (n = 0)%nat then Raise RuntimeError
  else
    let cs := ((sz + n - 1) / n)%nat in
    if decide (cs = 0)%nat
    then collect (replicate n (narrow d 0 0 t))
    else
      let k := Nat.max ((sz + cs - 1) / cs) 1 in
      collect (map (fun j => narrow d (j * cs) cs t) (seq 0 k)).

(** ** Linear layers and the hint cascade *)

Record Linear : Type := mkLinear {
  in_features : nat;
  out_features : nat;
  weight : list (list Z);   (* [out_features] rows of [in_features] entries *)
  bias : list Z
}.

Definition dot (row v : list Z) : Z :=
  foldr Z.add 0 (zip_with Z.mul row v).

(** One token through [nn.Linear]: [W v + b]. *)
Definition linear_row (L : Linear) (v : list Z) : result (list Z) :=
  if decide (length v = in_features L)
  then Ok (zip_with (fun row b => dot row v + b) (weight L) (bias L))
  else Raise RuntimeError.

Definition scalars (l : list tensor) : option (list Z) :=
  mapM (fun t => match t with Sc z => Some z | Ax _ => None end) l.

(** A function of the last axis applied to every row of a tensor. *)
Fixpoint on_rows (f : list Z → result (list Z)) (t : tensor) : result tensor :=
  match t with
  | Sc _ => Raise RuntimeError
  | Ax l =>
      match scalars l with
      | Some v => (fun r => Ax (map Sc r)) <$> f v
      | None => Ax <$> collect (map (on_rows f) l)
      end
  end.

Definition linear (L : Linear) (t : tensor) : result tensor :=
  on_rows (linear_row L) t.


(** The members of an [nn.Sequential]: linear layers and the pointwise
    nonlinearity [nn.SiLU]. *)
Inductive Layer : Type :=
| Lin (L : Linear)
| SiLU.

(** ** Reshaping primitives of torch and einops *)

Fixpoint flatten (t : tensor) : list Z :=
  match t with
  | Sc z => [z]
  | Ax l => concat (map flatten l)
  end.

Definition numel (t : tensor) : nat := length (flatten t).

Definition prod (s : list nat) : nat := foldr Nat.mul 1%nat s.

(** The row-major tensor of shape [s] over [data]. *)
Fixpoint build (s : list nat) (data : list Z) : tensor :=
  match s with
  | [] => Sc (hd 0 data)
  | n :: s' => Ax (map (fun i => build s' (drop (i * prod s') data)) (seq 0 n))
  end.

(** [t.view] to shape [s]. *)
Definition view (t : tensor) (s : list nat) : result tensor :=
  if decide (prod s = numel t) then Ok (build s (flatten t)) else Raise RuntimeError.

Fixpoint entry_at (idx : list nat) (t : tensor) {struct idx} : Z :=
  match idx, t with
  | [], Sc z => z
  | i :: idx', Ax l => match l !! i with Some x => entry_at idx' x | None => 0 end
  | _, _ => 0
  end.

Fixpoint tabulate (s : list nat) (f : list nat → Z) : tensor :=
  match s with
  | [] => Sc (f [])
  | n :: s' => Ax (map (fun i => tabulate s' (fun idx => f (i :: idx))) (seq 0 n))
  end.

Fixpoint position (j : nat) (perm : list nat) : nat :=
  match perm with
  | [] => O
  | p :: ps => if decide (p = j) then O else S (position j ps)
  end.

(** [t.permute] by [perm]: axis [k] of the result is axis [perm[k]] of [t]. *)
Definition permute (perm : list nat) (t : tensor) : result tensor :=
  let s := shape t in
  if decide (Permutation perm (seq 0 (length s)))
  then Ok (tabulate (map (fun p => default O (s !! p)) perm)
             (fun idx => entry_at
                (map (fun j => default O (idx !! position j perm)) (seq 0 (length s))) t))
  else Raise RuntimeError.

(** The einops patterns of the source.  [rearrange] raises when the rank of
    the tensor is not the one of the pattern. *)
Definition rearrange_BTHWD_THWBD (t : tensor) : result tensor :=
  if decide (ndim t = 5%nat) then permute [1; 2; 3; 0; 4]%nat t else Raise RuntimeError.

Definition rearrange_BMD_MBD (t : tensor) : result tensor :=
  if decide (ndim t = 3%nat) then permute [1; 0; 2]%nat t else Raise RuntimeError.

Definition rearrange_BM_MB (t : tensor) : result tensor :=
  if decide (ndim t = 2%nat) then permute [1; 0]%nat t else Raise RuntimeError.

(** ["B C (V T) H W -> B C V T H W"] with [V] given. *)
Definition rearrange_split_views (V : nat) (t : tensor) : result tensor :=
  match shape t with
  | [B; C; VT; H; W] =>
      if decide (V ≠ O ∧ VT `mod` V = O)%nat
      then view t [B; C; V; (VT / V)%nat; H; W]
      else Raise RuntimeError
  | _ => Raise RuntimeError
  end.

(** ["B C V T H W -> B C (V T) H W"] with [V] given. *)
Definition rearrange_merge_views (V : nat) (t : tensor) : result tensor :=
  match shape t with
  | [B; C; V'; T; H; W] =>
      if decide (V' = V) then view t [B; C; (V * T)%nat; H; W] else Raise RuntimeError
  | _ => Raise RuntimeError
  end.

(** [t.unsqueeze(d)]. *)
Fixpoint unsqueeze (d : nat) (t : tensor) : result tensor :=
  match d with
  | O => Ok (Ax [t])
  | S d' =>
      match t with
      | Ax l => Ax <$> collect (map (unsqueeze d') l)
      | Sc _ => Raise IndexError
      end
  end.

(** [t.repeat] by [ns], for as many factors as [t] has axes. *)
Fixpoint trepeat (ns : list nat) (t : tensor) {struct t} : result tensor :=
  match t, ns with
  | Sc z, [] => Ok (Sc z)
  | Ax l, n :: ns' =>
      l' ← collect (map (trepeat ns') l); Ok (Ax (concat (replicate n l')))
  | _, _ => Raise RuntimeError
  end.

(** [m[:, None, None, :]]. *)
Definition index_colon_none_none_colon (m : tensor) : result tensor :=
  match m with
  | Ax rows =>
      if decide (2 ≤ ndim m)%nat
      then Ok (Ax (map (fun r => Ax [Ax [r]]) rows))
      else Raise IndexError
  | Sc _ => Raise IndexError
  end.

(** [.to(dtype=torch.bool)]; a boolean tensor has entries 0 and 1. *)
Definition to_bool (t : tensor) : tensor :=
  tmap (fun z => if decide (z = 0) then 0 else 1) t.

(** [bool(t)] for a tensor: defined for a single entry only. *)
Definition truth (t : tensor) : result bool :=
  match flatten t with
  | [z] => Ok (bool_decide (z ≠ 0))
  | _ => Raise RuntimeError
  end.

(** The 1-dimensional tensor of a list of booleans. *)
Definition of_bools (bs : list bool) : tensor :=
  Ax (map (fun b : bool => Sc (if b then 1 else 0)) bs).

(** ** Python values and strings *)

Inductive pyval : Type :=
| PyNone
| PyNum (z : Z)
| PyTensor (t : tensor).

(** [cosmos_transfer1.diffusion.conditioner.DataType]. *)
Inductive DataType : Type := IMAGE | VIDEO | MIX.

Definition lower_ascii (a : ascii) : ascii :=
  let n := nat_of_ascii a in
  if decide (65 ≤ n ∧ n ≤ 90)%nat then ascii_of_nat (n + 32) else a.

Fixpoint lower (s : string) : string :=
  match s with
  | EmptyString => EmptyString
  | String a s' => String (lower_ascii a) (lower s')
  end.

(** [sub in s]. *)
Fixpoint contains (sub s : string) : bool :=
  String.prefix sub s
  || match s with
     | EmptyString => false
     | String _ s' => contains sub s'
     end.

(** [l.index(True)]. *)
Fixpoint index_true (l : list bool) : result nat :=
  match l with
  | [] => Raise ValueError
  | b :: l' => if b then Ok O else S <$> index_true l'
  end.

(** [range(start, stop, step)] for a positive step, by the number of its members. *)
Fixpoint range_from (start step count : nat) : list nat :=
  match count with
  | O => []
  | S c => start :: range_from (start + step) step c
  end.

Definition range_step (start stop step : nat) : list nat :=
  range_from start step ((stop - start + step - 1) / step).

(** ** The model object

    Modules whose code is outside this file (patch and positional embedders,
    transformer blocks, timestep embedder, norms) are opaque: an object is a
    handle, and what it computes is given by the interface [External] below. *)

Definition handle : Type := nat.

Record Block : Type := mkBlock {
  block_module : handle;
  x_format : string
}.

(** [nn.ModuleDict]: insertion-ordered, looked up by name. *)
Definition lookup_name {A} (name : string) (d : list (string * A)) : result A :=
  match list_find (fun e => e.1 = name) d with
  | Some (_, (_, a)) => Ok a
  | None => Raise KeyError
  end.

(** The attributes of one entry of [self.hint_encoders] that [forward] reads
    (each entry is an encoder of this class). *)
Record HintEncoder : Type := mkHintEncoder {
  he_input_hint_block : list Layer;
  he_pos_embedder : handle;
  he_x_embedder2 : handle;
  he_blocks : list (string * Block);
  he_zero_blocks : list (string * Linear);
  he_t_embedder : handle;
  he_affline_norm : handle;
  he_x_embedder : handle;
  he_extra_pos_embedder : handle
}.

(** Attributes set by the constructor of the parent class
    [MultiCameraGeneralDIT], which this file only reads. *)
Record ParentAttrs : Type := mkParentAttrs {
  num_blocks : nat;
  model_channels : nat;
  in_channels : Z;
  concat_padding_mask : bool;
  pos_emb_cls : string;
  legacy_patch_emb : bool;
  patch_spatial : nat;
  patch_temporal : nat;
  sequence_parallel : bool;
  cp_group : option handle;
  n_views : nat;
  use_cross_attn_mask : bool;
  additional_timestamp_channels : bool;
  block_config : string;
  blocks : list (string * Block);
  t_embedder : handle;
  affline_norm : handle
}.

(** The collaborators that [forward] reassigns on [self] for each control source. *)
Record Active : Type := mkActive {
  input_hint_block : list Layer;
  pos_embedder : handle;
  x_embedder2 : handle;
  x_embedder : handle;
  extra_pos_embedder : handle
}.

(** The attributes [forward] records on [self] for logging. *)
Record Log : Type := mkLog {
  crossattn_emb_attr : option tensor;
  crossattn_mask_attr : option (option tensor);
  affline_scale_log_info : option (gmap string tensor);
  affline_emb : option tensor
}.

Record Net : Type := mkNet {
  parent : ParentAttrs;
  is_extend_model : bool;
  add_augment_sigma_embedding : bool;
  dropout_ctrl_branch : Q;
  random_drop_control_blocks : bool;
  layer_mask : list bool;
  hint_channels : Z;
  zero_blocks : list (string * Linear);
  hint_encoders : option (list HintEncoder);   (* [hasattr(self, "hint_encoders")] *)
  active : Active;
  log : Log
}.

Definition with_active (f : Active → Active) (n : Net) : Net :=
  mkNet (parent n) (is_extend_model n) (add_augment_sigma_embedding n)
    (dropout_ctrl_branch n) (random_drop_control_blocks n) (layer_mask n)
    (hint_channels n) (zero_blocks n) (hint_encoders n) (f (active n)) (log n).

Definition with_log (f : Log → Log) (n : Net) : Net :=
  mkNet (parent n) (is_extend_model n) (add_augment_sigma_embedding n)
    (dropout_ctrl_branch n) (random_drop_control_blocks n) (layer_mask n)
    (hint_channels n) (zero_blocks n) (hint_encoders n) (active n) (f (log n)).

Definition set_input_hint_block (v : list Layer) (a : Active) : Active :=
  mkActive v (pos_embedder a) (x_embedder2 a) (x_embedder a) (extra_pos_embedder a).
Definition set_pos_embedder (v : handle) (a : Active) : Active :=
  mkActive (input_hint_block a) v (x_embedder2 a) (x_embedder a) (extra_pos_embedder a).
Definition set_x_embedder2 (v : handle) (a : Active) : Active :=
  mkActive (input_hint_block a) (pos_embedder a) v (x_embedder a) (extra_pos_embedder a).
Definition set_x_embedder (v : handle) (a : Active) : Active :=
  mkActive (input_hint_block a) (pos_embedder a) (x_embedder2 a) v (extra_pos_embedder a).
Definition set_extra_pos_embedder (v : handle) (a : Active) : Active :=
  mkActive (input_hint_block a) (pos_embedder a) (x_embedder2 a) (x_embedder a) v.

Definition set_crossattn (e : tensor) (m : option tensor) (l : Log) : Log :=
  mkLog (Some e) (Some m) (affline_scale_log_info l) (affline_emb l).
Definition set_affline (info : gmap string tensor) (e : tensor) (l : Log) : Log :=
  mkLog (crossattn_emb_attr l) (crossattn_mask_attr l) (Some info) (Some e).

(** The backbone handed to [forward] as [base_model]. *)
Record BaseModel : Type := mkBaseModel {
  base_net : handle;
  requires_grad : list bool          (* one flag per parameter *)
}.

(** The arguments of a call of [forward]. *)
Record Call : Type := mkCall {
  x : tensor;
  timesteps : tensor;
  crossattn_emb : tensor;
  crossattn_mask : option tensor;
  fps : option tensor;
  image_size : option tensor;
  padding_mask : option tensor;
  scalar_feature : option tensor;
  data_type : option DataType;
  hint_key : option string;
  base_model : BaseModel;
  control_weight : pyval;
  num_layers_to_use : Z;
  condition_video_input_mask : option tensor;
  latent_condition : option tensor;
  latent_condition_sigma : option tensor;
  view_indices_B_T : option tensor;
  kwargs : gmap string pyval
}.

(** What [forward] passes to [base_model.net.forward], [x_ctrl] apart. *)
Record BaseArgs : Type := mkBaseArgs {
  b_x : tensor;
  b_timesteps : tensor;
  b_crossattn_emb : tensor;
  b_crossattn_mask : option tensor;
  b_fps : option tensor;
  b_image_size : option tensor;
  b_padding_mask : option tensor;
  b_scalar_feature : option tensor;
  b_data_type : option DataType;
  b_condition_video_input_mask : option tensor;
  b_latent_condition : option tensor;
  b_latent_condition_sigma : option tensor;
  b_view_indices_B_T : option tensor;
  b_kwargs : gmap string pyval
}.

(** The keyword arguments of the constructor that this class pops or reads;
    the remaining ones go to the parent constructor untouched. *)
Record InitArgs : Type := mkInitArgs {
  ia_in_channels : Z;
  ia_is_extend_model : bool;
  ia_add_augment_sigma_embedding : option bool;
  ia_hint_channels : option Z;
  ia_dropout_ctrl_branch : option Q;
  ia_num_control_blocks : option Z;
  ia_random_drop_control_blocks : option bool;
  ia_num_blocks : option Z;
  ia_layer_mask : option (list bool);
  ia_rest : handle
}.

(** ** Collaborators outside this file *)

Class External : Type := {
  (* torch.nn and torch.nn.functional *)
  silu : Z → Z;
  nn_Linear : nat → nat → Linear;
  interpolate_trilinear : tensor → list nat → result tensor;
  resize_nearest : tensor → list nat → result tensor;
  (* the random generators, as the sequences of their raw draws *)
  torch_uniform : nat → Q;
  numpy_integers : nat → nat;
  (* modules of the backbone *)
  PatchEmbed : nat → nat → Z → nat → bool → handle;
  xavier_uniform : handle → handle;
  patch_embed : handle → tensor → result tensor;
  pos_embed : handle → tensor → option tensor → result tensor;
  t_embed : handle → tensor → result (tensor * option tensor);
  norm_apply : handle → tensor → result tensor;
  block_forward : Block → tensor → tensor → tensor → option tensor →
                  option tensor → option tensor → option tensor → result tensor;
  (* megatron and tensor parallelism *)
  scatter_along_first_dim : tensor → result tensor;
  tensor_model_parallel_world_size : nat;
  split_inputs_cp : tensor → nat → handle → result tensor;
  (* the parent class *)
  super_init : Z → InitArgs → option (list bool) → result (ParentAttrs * Active);
  init_weights : Net → Net;
  prepare_embedded_sequence :
    Net → tensor → option tensor → option tensor → option tensor → option tensor →
    pyval → option tensor → result (tensor * option tensor * option tensor);
  prepare_additional_timestamp_embedder :
    Net → nat → option tensor → tensor → tensor → tensor → tensor → result tensor;
  (* the backbone [base_model.net] *)
  base_embed : handle → BaseArgs → result tensor;
  base_blocks : handle → list string;
  base_block : handle → string → BaseArgs → tensor → result tensor;
  base_final : handle → BaseArgs → tensor → result tensor
}.

(** ** State: the model object, the autograd switch and the random generators *)

Record World : Type := mkWorld {
  net : Net;
  grad_enabled : bool;       (* [torch.is_grad_enabled()] *)
  torch_rng : nat;           (* draws taken from torch's generator so far *)
  numpy_rng : nat            (* draws taken from numpy's generator so far *)
}.

Definition M (A : Type) : Type := World → result A * World.

#[global] Instance M_ret : MRet M := fun _ a w => (Ok a, w).
#[global] Instance M_bind : MBind M := fun _ _ f m w =>
  match m w with
  | (Ok a, w') => f a w'
  | (Raise e, w') => (Raise e, w')
  end.

Definition lift {A} (r : result A) : M A := fun w => (r, w).
Definition raise {A} (e : exn) : M A := lift (Raise e).
Definition get_net : M Net := fun w => (Ok (net w), w).
Definition modify_net (f : Net → Net) : M unit := fun w =>
  (Ok tt, mkWorld (f (net w)) (grad_enabled w) (torch_rng w) (numpy_rng w)).
Definition is_grad_enabled : M bool := fun w => (Ok (grad_enabled w), w).

Section Model.
Context `{E : External}.

(** [torch.rand(n)]: the next [n] draws of the generator. *)
Definition torch_rand (n : nat) : M (list Q) := fun w =>
  (Ok (map torch_uniform (seq (torch_rng w) n)),
   mkWorld (net w) (grad_enabled w) (torch_rng w + n) (numpy_rng w)).

(** [np.random.randint(n)]: a draw in [0, n); [ValueError] for [n = 0]. *)
Definition np_random_randint (n : nat) : M nat := fun w =>
  if decide (n = O) then (Raise ValueError, w)
  else (Ok (numpy_integers (numpy_rng w) `mod` n)%nat,
        mkWorld (net w) (grad_enabled w) (torch_rng w) (numpy_rng w + 1)).

(** *** The constructor *)

(** Modelled from the spec: [zero_module] (module [diffusion.module.blocks],
    not part of this file) returns its argument with every parameter set to
    zero, "a projection initialized to output zero". *)
Definition zero_module (L : Linear) : Linear :=
  mkLinear (in_features L) (out_features L)
    (map (map (fun _ => 0)) (weight L)) (map (fun _ => 0) (bias L)).

Definition hint_nf : list nat := [16; 16; 32; 32; 96; 96; 256]%nat.

(** The layers [__init__] puts in [input_hint_block] before [init_weights]. *)
Fixpoint hint_layers (widths : list nat) : list Layer :=
  match widths with
  | a :: ((b :: _) as rest) => Lin (nn_Linear a b) :: SiLU :: hint_layers rest
  | _ => []
  end.

Definition block_name (idx : nat) : string := "block" +:+ pretty idx.

(** The loop filling [self.zero_blocks]. *)
Fixpoint build_zero_blocks (model_channels : nat) (layer_mask : list bool)
    (idxs : list nat) : result (list (string * Linear)) :=
  match idxs with
  | [] => Ok []
  | idx :: idxs' =>
      match layer_mask !! idx with
      | None => Raise IndexError
      | Some true => build_zero_blocks model_channels layer_mask idxs'
      | Some false =>
          zs ← build_zero_blocks model_channels layer_mask idxs';
          Ok ((block_name idx, zero_module (nn_Linear model_channels model_channels)) :: zs)
      end
  end.

(** [kwargs["layer_mask"]] as the constructor leaves it for the parent. *)
Definition init_layer_mask (a : InitArgs) : result (option (list bool)) :=
  match ia_num_control_blocks a with
  | Some ncb =>
      if decide (0 < ncb) then
        match ia_num_blocks a with
        | None => Raise KeyError
        | Some nb =>
            _ ← assert (bool_decide (ncb ≤ nb));
            Ok (Some (replicate (Z.to_nat ncb) false ++ replicate (Z.to_nat (nb - ncb)) true))
        end
      else Raise AssertionError
  | None => Ok (ia_layer_mask a)
  end.

(** [build_hint_patch_embed]. *)
Definition build_hint_patch_embed (p : ParentAttrs) (hint_channels : Z) : handle :=
  let in_ch := if concat_padding_mask p then hint_channels + 1 else hint_channels in
  let m := PatchEmbed (patch_spatial p) (patch_temporal p) in_ch (model_channels p)
             (legacy_patch_emb p) in
  if legacy_patch_emb p then xavier_uniform m else m.

(** [GeneralDITMulticamEncoder.__init__]. *)
Definition init (a : InitArgs) : result Net :=
  let new_input_channels :=
    if ia_is_extend_model a then ia_in_channels a + 1 else ia_in_channels a in
  let add_augment := default false (ia_add_augment_sigma_embedding a) in
  let hint_ch := default 16 (ia_hint_channels a) in
  let dropout := default (1 # 2)%Q (ia_dropout_ctrl_branch a) in
  mask_kw ← init_layer_mask a;
  let random_drop := default false (ia_random_drop_control_blocks a) in
  '(p, act) ← super_init new_input_channels a mask_kw;
  let mask := match mask_kw with
              | None => replicate (num_blocks p) false
              | Some m => m
              end in
  let cascade := hint_layers (model_channels p :: hint_nf) in
  let act1 := set_x_embedder2 (build_hint_patch_embed p hint_ch)
                (set_input_hint_block cascade act) in
  let self1 := init_weights
    (mkNet p (ia_is_extend_model a) add_augment dropout random_drop mask hint_ch
       [] None act1 (mkLog None None None None)) in
  zs ← build_zero_blocks (model_channels p) mask (seq 0 (num_blocks p));
  let final := zero_module (nn_Linear (List.last hint_nf O) (model_channels p)) in
  Ok (with_active
        (fun ac => set_input_hint_block (input_hint_block ac ++ [Lin final]) ac)
        (mkNet (parent self1) (is_extend_model self1) (add_augment_sigma_embedding self1)
           (dropout_ctrl_branch self1) (random_drop_control_blocks self1)
           (layer_mask self1) (hint_channels self1) zs (hint_encoders self1)
           (active self1) (log self1))).

(** *** Hint encoding *)

(** [nn.Sequential.__call__]. *)
Fixpoint sequential (ls : list Layer) (t : tensor) : result tensor :=
  match ls with
  | [] => Ok t
  | Lin L :: ls' => t' ← linear L t; sequential ls' t'
  | SiLU :: ls' => sequential ls' (tmap silu t)
  end.

(** [prepare_hint_embedded_sequence]. *)
Definition prepare_hint_embedded_sequence (x_B_C_T_H_W : tensor)
    (fps padding_mask : option tensor) : M (tensor * option tensor) :=
  self ← get_net;
  x_in ← lift (if concat_padding_mask (parent self) then
                 match padding_mask with
                 | None => Raise TypeError
                 | Some pm =>
                     let s := shape x_B_C_T_H_W in
                     pm1 ← resize_nearest pm (drop (length s - 2) s);
                     pm2 ← unsqueeze 1 pm1;
                     b ← size x_B_C_T_H_W 0;
                     t ← size x_B_C_T_H_W 2;
                     pm3 ← trepeat [b; 1; t; 1; 1]%nat pm2;
                     cat 1 x_B_C_T_H_W pm3
                 end
               else Ok x_B_C_T_H_W);
  x_B_T_H_W_D ← lift (patch_embed (x_embedder2 (active self)) x_in);
  if contains "rope" (lower (pos_emb_cls (parent self))) then
    pe ← lift (pos_embed (pos_embedder (active self)) x_B_T_H_W_D fps);
    mret (x_B_T_H_W_D, Some pe)
  else if contains "fps_aware" (pos_emb_cls (parent self)) then
    pe ← lift (pos_embed (pos_embedder (active self)) x_B_T_H_W_D fps);
    r ← lift (tadd x_B_T_H_W_D pe);
    mret (r, None)
  else
    pe ← lift (pos_embed (pos_embedder (active self)) x_B_T_H_W_D None);
    r ← lift (tadd x_B_T_H_W_D pe);
    mret (r, None).

(** The zero padding of the channel axis at the head of [encode_hint]. *)
Definition pad_channels (hint : tensor) (hint_channels : Z) : result tensor :=
  c ← size hint 1;
  if decide (Z.of_nat c < hint_channels) then
    let padding_shape := <[1%nat := Z.to_nat (hint_channels - Z.of_nat c)]> (shape hint) in
    cat 1 hint (zeros padding_shape)
  else Ok hint.

(** [hint.view(T * H * W, 1, 1, B, -1)] followed by [scatter_along_first_dim]. *)
Definition flatten_and_scatter (t : tensor) : result tensor :=
  match shape t with
  | [T; H; W; B; D] =>
      if decide (T * H * W * B = 0)%nat then Raise RuntimeError
      else
        v ← view t [T * H * W; 1; 1; B; numel t / (T * H * W * B)]%nat;
        scatter_along_first_dim v
  | _ => Raise ValueError
  end.

(** Lines 149-168 of [encode_hint]: the padded hint through the patch and
    positional embedding, the layout of the blocks and the cascade. *)
Definition embed_hint (hint : tensor) (fps padding_mask : option tensor)
    (data_type : option DataType) : M tensor :=
  self ← get_net;
  _ ← lift (assert (bool_decide (is_Some data_type)));
  '(hint_B_T_H_W_D, _) ← prepare_hint_embedded_sequence hint fps padding_mask;
  block0 ← lift (lookup_name "block0" (blocks (parent self)));
  hint2 ← lift (if String.eqb (x_format block0) "THWBD" then
                  h ← rearrange_BTHWD_THWBD hint_B_T_H_W_D;
                  if sequence_parallel (parent self) then flatten_and_scatter h else Ok h
                else if String.eqb (x_format block0) "BTHWD" then Ok hint_B_T_H_W_D
                else
                  (* the message of the [ValueError] indexes the ModuleDict
                     with [0], which raises first *)
                  Raise KeyError);
  lift (sequential (input_hint_block (active self)) hint2).

(** [encode_hint]. *)
Definition encode_hint (hint : tensor) (fps padding_mask : option tensor)
    (data_type : option DataType) : M tensor :=
  self ← get_net;
  c ← lift (size hint 1);
  _ ← lift (assert (bool_decide (Z.of_nat c ≤ hint_channels self)));
  hint1 ← lift (pad_channels hint (hint_channels self));
  embed_hint hint1 fps padding_mask data_type.

(** *** Control weights, gates and the weight map *)

(** An entry of the per-source list [control_weight] that [forward] builds. *)
Inductive cw_item : Type :=
| CwNum (z : Z)
| CwTensor (t : tensor)
| CwNone.

Definition expand_control_weight (cw : pyval) (n_hints : nat) : list cw_item :=
  match cw with
  | PyTensor t =>
      match t with
      | Sc z => replicate n_hints (CwNum z)
      | Ax l =>
          if decide (ndim t = 1%nat)
          then map (fun w => CwNum (hd 0 (flatten w))) l
          else map CwTensor l
      end
  | PyNum z => replicate n_hints (CwNum z)
  | PyNone => replicate n_hints CwNone
  end.

(** [coin_flip]: the number 1 or a boolean tensor. *)
Inductive coin : Type :=
| CoinOne
| CoinTensor (t : tensor).

Definition mul_coin (t : tensor) (c : coin) : result tensor :=
  match c with
  | CoinOne => Ok (tscale t 1)
  | CoinTensor ct => tmul t ct
  end.

(** [t * gate] for the Python boolean [gate]. *)
Definition mul_gate (t : tensor) (gate : bool) : tensor :=
  tscale t (if gate then 1 else 0).

(** [a += b]: the sum has to keep the shape of [a]. *)
Definition iadd (a b : tensor) : result tensor :=
  r ← tadd a b;
  if decide (shape r = shape a) then Ok r else Raise RuntimeError.

(** The local variables [B], [T], [H], [W] of [forward]. *)
Record Dims : Type := mkDims { dB : nat; dT : nat; dH : nat; dW : nat }.

(** The windows of the weight map that are interpolated to one frame each:
    [weight_map[:, :, :1]] and [weight_map[:, :, wi : wi + 8]] for
    [wi in range(1, weight_map.shape[2], 8)]. *)
Definition weight_map_windows (weight_map : tensor) (tw : nat) : list (result tensor) :=
  (if decide (5 ≤ ndim weight_map)%nat then narrow 2 0 1 weight_map else Raise IndexError)
  :: map (fun wi => narrow 2 wi 8 weight_map) (range_step 1 tw 8).

(** Lines 425-444: the resampling of a weight map to [T] frames of [H x W]. *)
Definition resample_weight_map (weight_map : tensor) (T H W : nat) : result tensor :=
  if decide (take 3 (drop 2 (shape weight_map)) = [T; H; W]) then Ok weight_map
  else
    tw ← size weight_map 2;
    _ ← assert (Z.of_nat tw =? 8 * (Z.of_nat T - 1) + 1);
    frames ← collect (map (fun w => w' ← w; interpolate_trilinear w' [1; H; W]%nat)
                        (weight_map_windows weight_map tw));
    match frames with
    | [] => Raise RuntimeError
    | f :: fs => cat_list 2 f fs
    end.

(** The weight map in the layout of the tokens. *)
Definition weight_map_tokens (self : Net) (weight_map : tensor) (d : Dims)
  : result tensor :=
  wm ← resample_weight_map weight_map (dT d) (dH d) (dW d);
  wm1 ← (if decide (ndim wm = 5%nat) then permute [2; 3; 4; 0; 1]%nat wm
         else Raise RuntimeError);
  wm2 ← view wm1 [dT d * dH d * dW d; 1; 1; dB d; 1]%nat;
  if sequence_parallel (parent self) then scatter_along_first_dim wm2 else Ok wm2.

(** [hint_val] for one block (lines 416-454). *)
Definition contribution (self : Net) (zero_blocks : list (string * Linear))
    (name : string) (x : tensor) (cwi : cw_item) (coin_flip : coin) (gate : bool)
    (d : Dims) : result tensor :=
  match cwi with
  | CwNone => Raise AttributeError
  | CwNum cw =>
      z ← lookup_name name zero_blocks;
      f ← linear z x;
      v ← mul_coin (tscale f cw) coin_flip;
      Ok (mul_gate v gate)
  | CwTensor w =>
      if decide (ndim w < 2)%nat then
        z ← lookup_name name zero_blocks;
        f ← linear z x;
        v1 ← tmul f w;
        v ← mul_coin v1 coin_flip;
        Ok (mul_gate v gate)
      else
        z ← lookup_name name zero_blocks;
        control_feat ← linear z x;
        block0 ← lookup_name "block0" (blocks (parent self));
        if String.eqb (x_format block0) "THWBD" then
          wm ← weight_map_tokens self w d;
          v1 ← tmul control_feat wm;
          v ← mul_coin v1 coin_flip;
          Ok (mul_gate v gate)
        else Raise NotImplementedError
  end.

(** [outs[name] = hint_val] or [outs[name] += hint_val]. *)
Definition accumulate (outs : gmap string tensor) (name : string) (hint_val : tensor)
  : result (gmap string tensor) :=
  match outs !! name with
  | None => Ok (<[name := hint_val]> outs)
  | Some o => r ← iadd o hint_val; Ok (<[name := r]> outs)
  end.

(** What every block of one control source receives besides the tokens. *)
Record BlockCtx : Type := mkBlockCtx {
  ctx_affline_emb : tensor;
  ctx_crossattn_emb : tensor;
  ctx_crossattn_mask : option tensor;
  ctx_rope : option tensor;
  ctx_adaln : option tensor;
  ctx_extra_pos : option tensor
}.

Definition call_block (k : BlockCtx) (b : Block) (x : tensor) : result tensor :=
  block_forward b x (ctx_affline_emb k) (ctx_crossattn_emb k) (ctx_crossattn_mask k)
    (ctx_rope k) (ctx_adaln k) (ctx_extra_pos k).

(** The loop over [blocks.items()] (lines 398-459) from position [idx] on;
    its state is [x], [guided_hint] and [outs]. *)
Fixpoint run_blocks (self : Net) (blocks_i : list (string * Block))
    (zero_blocks_i : list (string * Linear)) (k : BlockCtx)
    (control_weight_i : result cw_item) (coin_flip : coin) (gates : list bool)
    (d : Dims) (rest : list (string * Block)) (idx : nat)
    (x : tensor) (guided_hint : option tensor) (outs : gmap string tensor)
  : result (tensor * option tensor * gmap string tensor) :=
  match rest with
  | [] => Ok (x, guided_hint, outs)
  | (name, block) :: rest' =>
      block0 ← lookup_name "block0" blocks_i;
      (* a failing assertion formats its message with [blocks[0]], a [KeyError] *)
      _ ← (if String.eqb (x_format block0) (x_format block) then Ok tt else Raise KeyError);
      x1 ← call_block k block x;
      x2 ← match guided_hint with
           | Some g => tadd x1 g
           | None => Ok x1
           end;
      gate ← match gates !! idx with Some g => Ok g | None => Raise IndexError end;
      cwi ← control_weight_i;
      hint_val ← contribution self zero_blocks_i name x2 cwi coin_flip gate d;
      outs' ← accumulate outs name hint_val;
      run_blocks self blocks_i zero_blocks_i k control_weight_i coin_flip gates d
        rest' (S idx) x2 None outs'
  end.

(** *** The forward pass *)

(** The per-call locals the loop over control sources reads. *)
Record Locals : Type := mkLocals {
  loc_x_before_blocks : tensor;
  loc_crossattn_emb : tensor;
  loc_crossattn_mask : option tensor;
  loc_frame_repeat : pyval;
  loc_coin_flip : coin;
  loc_gates : list bool;
  loc_control_weight : list cw_item
}.

(** Lines 242-267: the channels of [x] for the data type at hand. *)
Definition reconcile_channels (self : Net) (c : Call) : result (tensor * Dims) :=
  _ ← assert (bool_decide (is_Some (data_type c)));
  match shape (x c) with
  | [B; C; T; H; W] =>
      x' ← match data_type c with
           | Some VIDEO =>
               match condition_video_input_mask c with
               | None => Ok (x c)
               | Some m =>
                   m' ← match cp_group (parent self) with
                        | Some g =>
                            m1 ← rearrange_split_views (n_views (parent self)) m;
                            m2 ← split_inputs_cp m1 3 g;
                            rearrange_merge_views (n_views (parent self)) m2
                        | None => Ok m
                        end;
                   cat 1 (x c) m'
               end
           | Some IMAGE =>
               let padding_channels := in_channels (parent self) - Z.of_nat C in
               if decide (padding_channels < 0) then Raise RuntimeError
               else cat 1 (x c) (zeros [B; Z.to_nat padding_channels; T; H; W])
           | _ =>
               _ ← assert (bool_decide (Z.of_nat C = in_channels (parent self)));
               Ok (x c)
           end;
      Ok (x', mkDims B T H W)
  | _ => Raise ValueError
  end.

(** Lines 272-280: the cross-attention inputs in the layout of the blocks. *)
Definition prepare_crossattn (self : Net) (c : Call) : result (tensor * option tensor) :=
  mask ← (if use_cross_attn_mask (parent self) then
            match crossattn_mask c with
            | None => Raise TypeError
            | Some m => m' ← index_colon_none_none_colon m; Ok (Some (to_bool m'))
            end
          else Ok None);
  block0 ← lookup_name "block0" (blocks (parent self));
  if String.eqb (x_format block0) "THWBD" then
    emb ← rearrange_BMD_MBD (crossattn_emb c);
    mask' ← match mask with
            | None => Ok None
            | Some m =>
                b ← truth m;
                if b : bool then Some <$> rearrange_BM_MB m else Ok (Some m)
            end;
    Ok (emb, mask')
  else Ok (crossattn_emb c, mask).

(** Lines 284-295: the branch dropout. *)
Definition branch_dropout (is_training : bool) (c : Call) (B : nat) : M coin :=
  let is_training_base_model := existsb id (requires_grad (base_model c)) in
  if is_training && is_training_base_model then
    us ← torch_rand B;
    self ← get_net;
    let flips := map (fun u => Sc (if Qle_bool u (dropout_ctrl_branch self) then 0 else 1)) us in
    block0 ← lift (lookup_name "block0" (blocks (parent self)));
    if String.eqb (x_format block0) "THWBD" then
      mret (CoinTensor (Ax [Ax [Ax [Ax (map (fun f => Ax [f]) flips)]]]))
    else if String.eqb (x_format block0) "BTHWD" then
      mret (CoinTensor (Ax (map (fun f => Ax [Ax [Ax [Ax [f]]]]) flips)))
    else mret (CoinTensor (Ax flips))
  else mret CoinOne.

(** Lines 297-307: the gates of the control blocks. *)
Definition control_gates (is_training : bool) (c : Call) : M (list bool) :=
  self ← get_net;
  num_control_blocks ← lift (index_true (layer_mask self));
  num_layers ← (if random_drop_control_blocks self then
                  if is_training then
                    r ← np_random_randint num_control_blocks; mret (Z.of_nat r + 1)
                  else if num_layers_to_use c =? -1 then mret (Z.of_nat num_control_blocks)
                  else mret (num_layers_to_use c)
                else mret (Z.of_nat num_control_blocks));
  mret (map (fun i => Z.of_nat i <? num_layers) (seq 0 num_control_blocks)).

(** Lines 381-396: the sequence-parallel layout of the tokens and of the extra
    positional embedding; it rebinds the locals [T], [H], [W], [B]. *)
Definition sequence_parallel_layout (self : Net) (x : tensor) (extra : option tensor)
    (d : Dims) : result (tensor * option tensor * Dims) :=
  if sequence_parallel (parent self) then
    _ ← assert (String.eqb (block_config (parent self)) "FA-CA-MLP");
    match shape x with
    | [T; H; W; B; D] =>
        xv ← view x [T * H * W; 1; 1; B; D]%nat;
        _ ← (if decide (tensor_model_parallel_world_size = O) then Raise ZeroDivisionError
             else assert (bool_decide
                    ((T * H * W) `mod` tensor_model_parallel_world_size = 0)%nat));
        xs ← scatter_along_first_dim xv;
        extra' ← match extra with
                 | None => Ok None
                 | Some e =>
                     ev ← view e [T * H * W; 1; 1; B; D]%nat;
                     Some <$> scatter_along_first_dim ev
                 end;
        Ok (xs, extra', mkDims B T H W)
    | _ => Raise ValueError
    end
  else Ok (x, extra, d).

(** Lines 352-369: the affine embedding and what is logged about it.  The
    in-place [+=] also changes the tensor logged as [timesteps_B_D]. *)
Definition affline_embedding (self : Net) (c : Call) (x : tensor)
    (timesteps_B_D : tensor) : result (tensor * gmap string tensor) :=
  '(emb, info) ←
    (if additional_timestamp_channels (parent self) then
       match image_size c with
       | None => Raise TypeError
       | Some sz =>
           bs ← size x 0;
           h ← select 1 0 sz;
           w ← select 1 1 sz;
           org_h ← select 1 2 sz;
           org_w ← select 1 3 sz;
           additional_cond_B_D ←
             prepare_additional_timestamp_embedder self bs (fps c) h w org_h org_w;
           e ← iadd timesteps_B_D additional_cond_B_D;
           Ok (e, <["additional_cond_B_D" := additional_cond_B_D]>
                    ({["timesteps_B_D" := e]} : gmap string tensor))
       end
     else Ok (timesteps_B_D, ({["timesteps_B_D" := timesteps_B_D]} : gmap string tensor)));
  Ok (emb, <["affline_emb_B_D" := emb]> info).

(** Lines 328-329: the embedders of a hint encoder assigned to [self]. *)
Definition select_embedders (e : HintEncoder) (a : Active) : Active :=
  set_extra_pos_embedder (he_extra_pos_embedder e) (set_x_embedder (he_x_embedder e) a).

(** What the loop over the blocks of one control source works with. *)
Record SourceInputs : Type := mkSourceInputs {
  si_self : Net;
  si_blocks : list (string * Block);
  si_zero_blocks : list (string * Linear);
  si_ctx : BlockCtx;
  si_x : tensor;
  si_dims : Dims
}.

(** Lines 322-396 of one iteration of the loop over [enumerate(guided_hints)]:
    the collaborators of source [i], the embedded tokens and the embeddings
    every block receives. *)
Definition source_inputs (c : Call) (l : Locals) (i : nat) (d : Dims) : M SourceInputs :=
  self0 ← get_net;
  '(blocks_i, zero_blocks_i, t_embedder_i, affline_norm_i) ←
    match hint_encoders self0 with
    | Some encs =>
        match encs !! i with
        | None => raise IndexError
        | Some e =>
            _ ← modify_net (with_active (select_embedders e));
            mret (he_blocks e, he_zero_blocks e, he_t_embedder e, he_affline_norm e)
        end
    | None =>
        mret (blocks (parent self0), zero_blocks self0,
              t_embedder (parent self0), affline_norm (parent self0))
    end;
  self ← get_net;
  '(x_B_T_H_W_D, rope_emb, extra_pos_emb) ←
    lift (prepare_embedded_sequence self (loc_x_before_blocks l) (fps c) (padding_mask c)
            (latent_condition c) (latent_condition_sigma c) (loc_frame_repeat l)
            (view_indices_B_T c));
  '(timesteps_B_D, adaln_lora_B_3D) ←
    lift (t_embed t_embedder_i (Ax (map Sc (flatten (timesteps c)))));
  _ ← (match scalar_feature c with
       | Some _ => raise NotImplementedError
       | None => mret tt
       end);
  '(affline_emb_B_D, info) ←
    lift (affline_embedding self c (loc_x_before_blocks l) timesteps_B_D);
  affline_emb_normed ← lift (norm_apply affline_norm_i affline_emb_B_D);
  _ ← modify_net (with_log (set_affline info affline_emb_normed));
  x1 ← lift (rearrange_BTHWD_THWBD x_B_T_H_W_D);
  extra1 ← lift (match extra_pos_emb with
                 | None => Ok None
                 | Some e => Some <$> rearrange_BTHWD_THWBD e
                 end);
  '(x2, extra2, d') ← lift (sequence_parallel_layout self x1 extra1 d);
  mret (mkSourceInputs self blocks_i zero_blocks_i
          (mkBlockCtx affline_emb_normed (loc_crossattn_emb l) (loc_crossattn_mask l)
             rope_emb adaln_lora_B_3D extra2)
          x2 d').

(** One iteration of the loop over [enumerate(guided_hints)] (lines 321-459). *)
Definition run_source (c : Call) (l : Locals) (i : nat) (guided_hint : tensor)
    (outs : gmap string tensor) (d : Dims) : M (gmap string tensor * Dims) :=
  si ← source_inputs c l i d;
  let cwi := match loc_control_weight l !! i with
             | Some w => Ok w
             | None => Raise IndexError
             end in
  '(_, _, outs') ←
    lift (run_blocks (si_self si) (si_blocks si) (si_zero_blocks si) (si_ctx si) cwi
            (loc_coin_flip l) (loc_gates l) (si_dims si)
            (si_blocks si) 0 (si_x si) (Some guided_hint) outs);
  mret (outs', si_dims si).

(** The loop over [enumerate(guided_hints)] from position [i] on. *)
Fixpoint run_sources (c : Call) (l : Locals) (guided_hints : list tensor) (i : nat)
    (outs : gmap string tensor) (d : Dims) : M (gmap string tensor * Dims) :=
  match guided_hints with
  | [] => mret (outs, d)
  | g :: gs =>
      '(outs', d') ← run_source c l i g outs d;
      run_sources c l gs (S i) outs' d'
  end.

(** Lines 228-230: the assignments that make a hint encoder the active one. *)
Definition select_encoder (e : HintEncoder) (a : Active) : Active :=
  set_x_embedder2 (he_x_embedder2 e)
    (set_pos_embedder (he_pos_embedder e)
       (set_input_hint_block (he_input_hint_block e) a)).

(** Lines 227-231: one hint encoder per control source, made the active one
    by assignment to [self]. *)
Fixpoint encode_sources (c : Call) (encs : list HintEncoder) (hint : tensor)
    (idxs : list nat) : M (list tensor) :=
  match idxs with
  | [] => mret []
  | i :: idxs' =>
      e ← lift (match encs !! i with Some e => Ok e | None => Raise IndexError end);
      _ ← modify_net (with_active (select_encoder e));
      hint_i ← lift (select 1 i hint);
      g ← encode_hint hint_i (fps c) (padding_mask c) (data_type c);
      gs ← encode_sources c encs hint idxs';
      mret (g :: gs)
  end.

(** Lines 225-236: the guided hints. *)
Definition encode_guided_hints (c : Call) (hint : tensor) : M (list tensor) :=
  self ← get_net;
  match hint_encoders self with
  | Some encs =>
      n ← lift (size hint 1);
      encode_sources c encs hint (seq 0 n)
  | None =>
      g ← encode_hint hint (fps c) (padding_mask c) (data_type c);
      hb ← lift (size hint 0);
      xb ← lift (size (x c) 0);
      if decide (xb = O) then raise ZeroDivisionError
      else
        guided_hints ← lift (chunk g (hb / xb) 3);
        (* Only support multi-control at inference time *)
        grad ← is_grad_enabled;
        _ ← lift (assert (bool_decide (length guided_hints = 1%nat) || negb grad));
        mret guided_hints
  end.

(** Lines 225-459: everything [forward] computes for a hint that is present,
    up to the map [outs] handed to the backbone. *)
Definition control_outs (c : Call) (frame_repeat : pyval) (hint : tensor)
  : M (gmap string tensor) :=
  guided_hints ← encode_guided_hints c hint;
  self ← get_net;
  '(x1, d) ← lift (reconcile_channels self c);
  _ ← modify_net (with_log (set_crossattn (crossattn_emb c) (crossattn_mask c)));
  '(emb, mask) ← lift (prepare_crossattn self c);
  is_training ← is_grad_enabled;
  coin_flip ← branch_dropout is_training c (dB d);
  gates ← control_gates is_training c;
  let cw := expand_control_weight (control_weight c) (length guided_hints) in
  '(outs, _) ← run_sources c (mkLocals x1 emb mask frame_repeat coin_flip gates cw)
                 guided_hints 0 ∅ d;
  mret outs.

(** The original arguments, as [forward] hands them to the backbone. *)
Definition base_args (c : Call) (kw : gmap string pyval) : BaseArgs :=
  mkBaseArgs (x c) (timesteps c) (crossattn_emb c) (crossattn_mask c) (fps c)
    (image_size c) (padding_mask c) (scalar_feature c) (data_type c)
    (condition_video_input_mask c) (latent_condition c) (latent_condition_sigma c)
    (view_indices_B_T c) kw.

(** Modelled from the spec: the forward pass of the backbone
    [base_model.net] (its class is not part of this file), which "must treat
    an absent/empty [x_ctrl] as uncontrolled and otherwise add each entry at
    the matching block boundary internally".  An entry is added to the hidden
    state it was computed for, entry by entry. *)
Fixpoint base_run_blocks (m : handle) (a : BaseArgs) (x_ctrl : option (gmap string tensor))
    (names : list string) (h : tensor) : result tensor :=
  match names with
  | [] => Ok h
  | name :: rest =>
      h1 ← base_block m name a h;
      h2 ← match x_ctrl ≫= (fun ctrl => ctrl !! name) with
           | Some t => tzip Z.add h1 t
           | None => Ok h1
           end;
      base_run_blocks m a x_ctrl rest h2
  end.

Definition base_net_forward (m : handle) (a : BaseArgs)
    (x_ctrl : option (gmap string tensor)) : result tensor :=
  h ← base_embed m a;
  h' ← base_run_blocks m a x_ctrl (base_blocks m) h;
  base_final m a h'.

(** [kwargs.pop(key)]. *)
Definition pop (kw : gmap string pyval) (key : option string)
  : result (pyval * gmap string pyval) :=
  match key with
  | None => Raise KeyError
  | Some k =>
      match kw !! k with
      | None => Raise KeyError
      | Some v => Ok (v, delete k kw)
      end
  end.

(** [GeneralDITMulticamEncoder.forward]. *)
Definition forward (c : Call) : M tensor :=
  let frame_repeat := default PyNone (kwargs c !! "frame_repeat") in
  '(hint, kwargs') ← lift (pop (kwargs c) (hint_key c));
  match hint with
  | PyNone =>
      lift (base_net_forward (base_net (base_model c)) (base_args c kwargs') None)
  | PyNum _ => raise AttributeError
  | PyTensor h =>
      outs ← control_outs c frame_repeat h;
      lift (base_net_forward (base_net (base_model c)) (base_args c kwargs') (Some outs))
  end.

End Model.

(** ** Notions the properties are stated with *)

(** The hint with its channel axis filled up with zeros to [target] channels. *)
Definition zero_pad_channels (target : nat) (hint : tensor) : result tensor :=
  match shape hint with
  | B :: C :: rest => cat 1 hint (zeros (B :: (target - C)%nat :: rest))
  | _ => Raise IndexError
  end.

(** The attributes of the model that [forward] never assigns. *)
Definition frozen (n : Net) :=
  (parent n, is_extend_model n, add_augment_sigma_embedding n, dropout_ctrl_branch n,
   random_drop_control_blocks n, layer_mask n, hint_channels n, zero_blocks n,
   hint_encoders n).

(** A state predicate kept by a computation, whatever it returns or raises. *)
Definition keeps {A} (I : World → Prop) (m : M A) : Prop :=
  ∀ w, I w → I (m w).2.




(** The drawn gate of one batch element. *)
Definition gate_of (p u : Q) : Z := if Qle_bool u p then 0 else 1.

(** Outside training no draw is taken from either generator. *)
Definition quiet (k1 k2 : nat) : World → Prop :=
  fun w => grad_enabled w = false ∧ torch_rng w = k1 ∧ numpy_rng w = k2.

(** The frozen attributes and the autograd switch are those of [w0]. *)
Definition same_frozen (w0 : World) : World → Prop :=
  fun w => frozen (net w) = frozen (net w0) ∧ grad_enabled w = grad_enabled w0.




Section Notions.
Context `{E : External}.

(** The blocks applied one after the other, with nothing added in between. *)
Fixpoint chain (k : BlockCtx) (bl : list (string * Block)) (x : tensor) : result tensor :=
  match bl with
  | [] => Ok x
  | (_, b) :: rest => x' ← call_block k b x; chain k rest x'
  end.

End Notions.

(** ** The extended encoder

    [VideoExtendGeneralDITMulticamEncoder] adds the condition mask and the
    pose of a video to the channels of the input and hands everything else
    to the encoder above. *)

(** The arguments of a call of the extended [forward]: the ones it shares
    with the encoder's [forward] (of which [latent_condition] and
    [latent_condition_sigma] travel in the keyword arguments) and its own. *)
Record ExtendCall : Type := mkExtendCall {
  ec_call : Call;
  video_cond_bool : option tensor;
  condition_video_indicator : option tensor;
  condition_video_augment_sigma : option tensor;
  condition_video_pose : option tensor
}.

(** An optional tensor as a keyword argument. *)
Definition of_optional (t : option tensor) : pyval :=
  match t with
  | Some t => PyTensor t
  | None => PyNone
  end.

(** The constructor arguments without [add_augment_sigma_embedding], which
    the extended constructor takes by name and does not pass on. *)
Definition without_add_augment (a : InitArgs) : InitArgs :=
  mkInitArgs (ia_in_channels a) (ia_is_extend_model a) None (ia_hint_channels a)
    (ia_dropout_ctrl_branch a) (ia_num_control_blocks a)
    (ia_random_drop_control_blocks a) (ia_num_blocks a) (ia_layer_mask a) (ia_rest a).

Module VideoExtend.
Section VideoExtend.
Context `{E : External}.

(** [VideoExtendGeneralDITMulticamEncoder.__init__]: the attribute it sets
    before the parent constructor runs is assigned again by that one. *)
Definition init (add_augment_sigma_embedding : bool) (a : InitArgs) : result Net :=
  init (without_add_augment a).

(** Lines 522-531: the condition mask split over the context-parallel group. *)
Definition split_condition_mask (self : Net) (m : tensor) : result tensor :=
  match cp_group (parent self) with
  | Some g =>
      m1 ← rearrange_split_views (n_views (parent self)) m;
      m2 ← split_inputs_cp m1 3 g;
      rearrange_merge_views (n_views (parent self)) m2
  | None => Ok m
  end.

(** Lines 533-539: the pose, cut to the [T] frames of the input. *)
Definition pose_inputs (T : nat) (pose : option tensor) : result (list tensor) :=
  match pose with
  | None => Ok []
  | Some p =>
      tp ← size p 2;
      if decide (T < tp)%nat then
        p' ← (if decide (5 ≤ ndim p)%nat then narrow 2 0 T p else Raise IndexError);
        Ok [p']
      else Ok [p]
  end.

(** Lines 516-543: the input of the encoder above. *)
Definition extend_input (self : Net) (ec : ExtendCall) : result tensor :=
  let c := ec_call ec in
  match shape (x c) with
  | [B; C; T; H; W] =>
      match data_type c with
      | Some VIDEO =>
          match condition_video_input_mask c with
          | None => Raise AssertionError
          | Some m =>
              m' ← split_condition_mask self m;
              pose ← pose_inputs T (condition_video_pose ec);
              cat_list 1 (x c) (m' :: pose)
          end
      | _ => Ok (x c)
      end
  | _ => Raise ValueError
  end.

(** The keyword arguments [super().forward] receives beyond its own parameters. *)
Definition super_kwargs (ec : ExtendCall) : gmap string pyval :=
  <["condition_video_augment_sigma" := of_optional (condition_video_augment_sigma ec)]>
    (kwargs (ec_call ec)).

(** The arguments of [super().forward] (lines 545-562); the condition mask
    is not among them. *)
Definition super_call (ec : ExtendCall) (x' : tensor) : Call :=
  let c := ec_call ec in
  mkCall x' (timesteps c) (crossattn_emb c) (crossattn_mask c) (fps c) (image_size c)
    (padding_mask c) (scalar_feature c) (data_type c) (hint_key c) (base_model c)
    (control_weight c) (num_layers_to_use c) None (latent_condition c)
    (latent_condition_sigma c) (view_indices_B_T c) (super_kwargs ec).

(** [VideoExtendGeneralDITMulticamEncoder.forward]. *)
Definition forward (ec : ExtendCall) : M tensor :=
  self ← get_net;
  x' ← lift (extend_input self ec);
  forward (super_call ec x').

End VideoExtend.
End VideoExtend.

(** ** Further notions *)

(** A tensor that is rectangular, of extents [s]. *)
Fixpoint has_shape (s : list nat) (t : tensor) : bool :=
  match s, t with
  | [], Sc _ => true
  | n :: s', Ax l => bool_decide (length l = n) && forallb (has_shape s') l
  | _, _ => false
  end.

(** The channels a list of tensors adds when concatenated along axis 1. *)
Definition channels (ts : list tensor) : nat :=
  sum_list (map (fun t => default O (shape t !! 1%nat)) ts).

(** The number of input channels the constructor hands to the parent class
    (lines 45-49). *)
Definition new_input_channels (a : InitArgs) : Z :=
  if ia_is_extend_model a then ia_in_channels a + 1 else ia_in_channels a.

Section MoreNotions.
Context `{E : External}.


End MoreNotions.

(** ** A small instance of the interface

    Two channels per token, shape-preserving blocks: enough to run the model
    on concrete calls. *)

Definition demo_tokens (m : handle) (x : tensor) : result tensor :=
  match shape x with
  | [B; C; T; H; W] =>
      Ok (tabulate [B; T; H; W; 2]%nat (fun idx => Z.of_nat (m + foldr Nat.add O idx)))
  | _ => Raise RuntimeError
  end.

Definition demo_blocks (mask : list bool) : list (string * Block) :=
  omap (fun '((idx, masked) : nat * bool) =>
          if masked : bool then None
          else Some ("block" +:+ pretty idx, mkBlock (10 + idx)%nat "THWBD"))
       (zip (seq 0 (length mask)) mask).

Definition demo_super_init (ic : Z) (a : InitArgs) (mask : option (list bool))
  : result (ParentAttrs * Active) :=
  let nb := Z.to_nat (default 2 (ia_num_blocks a)) in
  Ok (mkParentAttrs nb 2%nat ic false "rope3d" false 2%nat 1%nat false None 1%nat
        false false "FA-CA-MLP" (demo_blocks (default (replicate nb false) mask))
        3%nat 4%nat,
      mkActive [] 5%nat 6%nat 7%nat 8%nat).

#[global] Instance demo_external : External := {|
  silu := fun z => z;
  nn_Linear := fun i o => mkLinear i o (replicate o (replicate i 1)) (replicate o 1);
  interpolate_trilinear := fun t sz => narrow 2 0 1 t;
  resize_nearest := fun t _ => Ok t;
  torch_uniform := fun k => if Nat.even k then (1 # 4)%Q else (3 # 4)%Q;
  numpy_integers := fun k => k;
  PatchEmbed := fun ps pt ic oc legacy => 6%nat;
  xavier_uniform := fun m => m;
  patch_embed := demo_tokens;
  pos_embed := fun m x _ => Ok (tmap (fun _ => Z.of_nat m) x);
  t_embed := fun m ts => Ok (Ax [ts], None);
  norm_apply := fun m t => Ok t;
  block_forward := fun b x _ _ _ _ _ _ => Ok (tmap (fun z => z + Z.of_nat (block_module b)) x);
  scatter_along_first_dim := fun t => Ok t;
  tensor_model_parallel_world_size := 1%nat;
  split_inputs_cp := fun t _ _ => Ok t;
  super_init := demo_super_init;
  init_weights := fun n => n;
  prepare_embedded_sequence := fun self x _ _ _ _ _ _ =>
    t ← demo_tokens (x_embedder (active self)) x; Ok (t, None, None);
  prepare_additional_timestamp_embedder := fun _ _ _ _ _ _ _ => Ok (Sc 0);
  base_embed := fun m a => t ← demo_tokens m (b_x a); rearrange_BTHWD_THWBD t;
  base_blocks := fun m => ["block0"; "block1"; "block2"];
  base_block := fun m name a h => Ok (tmap (fun z => 2 * z + 1) h);
  base_final := fun m a h => Ok h
|}.

(** Three backbone blocks of which the first two are control blocks, hints
    of at most two channels. *)
Definition demo_init_args : InitArgs :=
  mkInitArgs 1 false None (Some 2) None (Some 2) None (Some 3) None 0%nat.

Definition empty_net : Net :=
  mkNet (mkParentAttrs 0 0 0 false "" false 0 0 false None 0 false false "" [] 0 0)%nat
    false false 0%Q false [] 0 [] None (mkActive [] 0 0 0 0)%nat
    (mkLog None None None None).

(** The encoder as its constructor leaves it. *)
Definition demo_net : Net :=
  match init demo_init_args with
  | Ok n => n
  | Raise _ => empty_net
  end.

(** The same encoder after training moved the zero projections away from zero. *)
Definition demo_trained_net : Net :=
  mkNet (parent demo_net) (is_extend_model demo_net) (add_augment_sigma_embedding demo_net)
    (dropout_ctrl_branch demo_net) (random_drop_control_blocks demo_net)
    (layer_mask demo_net) (hint_channels demo_net)
    (map (fun e : string * Linear =>
            (e.1, mkLinear (in_features e.2) (out_features e.2)
                    (map (map (fun _ => 1)) (weight e.2)) (map (fun _ => 1) (bias e.2))))
       (zero_blocks demo_net))
    (hint_encoders demo_net) (active demo_net) (log demo_net).

(** An entry of [hint_encoders] with its own collaborators. *)
Definition demo_encoder (m : handle) : HintEncoder :=
  mkHintEncoder (SiLU :: input_hint_block (active demo_net)) m m
    (blocks (parent demo_net)) (zero_blocks demo_net) m m m m.

(** The encoder with two hint encoders attached for multi-control. *)
Definition demo_multi_net : Net :=
  mkNet (parent demo_net) (is_extend_model demo_net) (add_augment_sigma_embedding demo_net)
    (dropout_ctrl_branch demo_net) (random_drop_control_blocks demo_net)
    (layer_mask demo_net) (hint_channels demo_net) (zero_blocks demo_net)
    (Some [demo_encoder 20%nat; demo_encoder 30%nat]) (active demo_net) (log demo_net).

(** The trained encoder with random dropping of control blocks switched on. *)
Definition demo_gated_net : Net :=
  mkNet (parent demo_trained_net) (is_extend_model demo_trained_net)
    (add_augment_sigma_embedding demo_trained_net) (dropout_ctrl_branch demo_trained_net)
    true (layer_mask demo_trained_net) (hint_channels demo_trained_net)
    (zero_blocks demo_trained_net) (hint_encoders demo_trained_net)
    (active demo_trained_net) (log demo_trained_net).

(** Two backbone blocks, both of them control blocks. *)
Definition demo_full_args : InitArgs :=
  mkInitArgs 1 false None (Some 2) None (Some 2) None (Some 2) None 0%nat.

Definition demo_full_net : Net :=
  match init demo_full_args with
  | Ok n => n
  | Raise _ => empty_net
  end.

Definition demo_world (n : Net) (grad : bool) : World := mkWorld n grad 0 0.

(** A one-channel hint for a batch of one, a hint with two control sources,
    and two hints stacked along the batch axis. *)
Definition demo_hint : tensor := tabulate [1; 1; 1; 1; 2]%nat (fun _ => 3).
Definition demo_multi_hint : tensor := tabulate [1; 2; 1; 1; 1; 2]%nat (fun _ => 3).
Definition demo_stacked_hint : tensor := tabulate [2; 1; 1; 1; 2]%nat (fun _ => 3).

(** A call with [hint_key = "hint"], auxiliary arguments [kw] and
    [num_layers_to_use = k]. *)
Definition demo_call (kw : gmap string pyval) (k : Z) : Call :=
  mkCall (zeros [1; 1; 1; 1; 2]%nat) (Ax [Sc 1]) (zeros [1; 2; 2]%nat) None None None None
    None (Some VIDEO) (Some "hint") (mkBaseModel 9%nat [false]) (PyNum 1) k
    None None None None kw.

Definition demo_hint_call (hint : tensor) (k : Z) : Call :=
  demo_call {["hint" := PyTensor hint]} k.

(** A weight map of nine frames for two latent frames. *)
Definition demo_weight_map : tensor := tabulate [1; 1; 9; 1; 1]%nat (fun _ => 1).

(** The output of the demo backbone on the demo input, without control. *)
Definition demo_output : tensor :=
  Ax [Ax [Ax [Ax [Ax [Sc 79; Sc 87]]; Ax [Ax [Sc 87; Sc 95]]]]].


(** The locals of a call on the demo input, and a guided hint for it. *)
Definition demo_locals : Locals :=
  mkLocals (zeros [1; 1; 1; 1; 2]%nat) (zeros [1; 2; 2]%nat) None PyNone CoinOne
    [true; true] [CwNum 1].

Definition demo_guided_hint : tensor := tabulate [1; 1; 2; 1; 2]%nat (fun _ => 5).

(** ** More of the small instance *)

(** A call on the demo backbone with the input [x0], the data type [dt], the
    control weight [cw], the cross-attention mask [cm], the image sizes [sz],
    the scalar feature [sf], the condition mask [m] and the auxiliary
    arguments [kw]. *)
Definition demo_call_on (x0 : tensor) (dt : option DataType) (cw : pyval)
    (cm sz sf m : option tensor) (kw : gmap string pyval) : Call :=
  mkCall x0 (Ax [Sc 1]) (zeros [1; 2; 2]%nat) cm None sz None sf dt (Some "hint")
    (mkBaseModel 9%nat [false]) cw (-1) m None None None kw.

(** An input of one channel, with entries other than zero. *)
Definition demo_input : tensor := tabulate [1; 1; 1; 1; 2]%nat (fun _ => 7).

(** A condition mask for the demo input, a pose of three frames and the
    auxiliary arguments with a hint and without one. *)
Definition demo_mask : tensor := tabulate [1; 1; 1; 1; 2]%nat (fun _ => 1).
Definition demo_pose : tensor :=
  tabulate [1; 1; 3; 1; 2]%nat (fun idx => Z.of_nat (default O (idx !! 2%nat))).
Definition demo_with_hint : gmap string pyval := {["hint" := PyTensor demo_hint]}.
Definition demo_without_hint : gmap string pyval := {["hint" := PyNone]}.

(** The demo encoder with the layout [fmt] for its two blocks, with or
    without the cross-attention mask and the additional timestamp channels. *)
Definition demo_variant_net (fmt : string) (use_mask additional : bool) : Net :=
  mkNet
    (mkParentAttrs 3 2 1 false "rope3d" false 2 1 false None 1 use_mask additional
       "FA-CA-MLP" [("block0", mkBlock 10 fmt); ("block1", mkBlock 11 fmt)] 3 4)%nat
    false false (1 # 2)%Q false [false; false; true] 2 (zero_blocks demo_trained_net)
    None (active demo_net) (mkLog None None None None).

(** Constructor arguments for a model of three input channels, for a number
    of control blocks beyond the number of blocks, for a layer mask that is
    too short, and without either. *)
Definition demo_image_args : InitArgs :=
  mkInitArgs 3 false None (Some 2) None (Some 2) None (Some 3) None 0%nat.
Definition demo_excess_args : InitArgs :=
  mkInitArgs 1 false None (Some 2) None (Some 5) None (Some 3) None 0%nat.
Definition demo_short_mask_args : InitArgs :=
  mkInitArgs 1 false None (Some 2) None None None (Some 3) (Some [false]) 0%nat.
Definition demo_default_args : InitArgs :=
  mkInitArgs 1 false (Some true) (Some 2) None None None (Some 2) None 0%nat.

Definition demo_image_net : Net :=
  match init demo_image_args with
  | Ok n => n
  | Raise _ => empty_net
  end.

Definition demo_default_net : Net :=
  match init demo_default_args with
  | Ok n => n
  | Raise _ => empty_net
  end.

(** Calls of the extended [forward] on the demo input: for video with the
    condition mask and the pose, and without the mask. *)
Definition demo_extend_call (m pose : option tensor) (kw : gmap string pyval)
  : ExtendCall :=
  mkExtendCall (demo_call_on demo_input (Some VIDEO) (PyNum 1) None None None m kw)
    None None (Some (Ax [Sc 2])) pose.

(** A hint of three channels, one more than the demo encoder takes, and a
    hint of three control sources. *)
Definition demo_wide_hint : tensor := tabulate [1; 3; 1; 1; 2]%nat (fun _ => 3).
Definition demo_triple_hint : tensor := tabulate [1; 3; 1; 1; 1; 2]%nat (fun _ => 3).

(** The embeddings every demo block receives besides the tokens. *)
Definition demo_block_ctx : BlockCtx :=
  mkBlockCtx (Ax [Ax [Sc 1]]) (zeros [1; 2; 2]%nat) None None None None.

(** Tokens in the layout of the demo blocks. *)
Definition demo_block_tokens : tensor :=
  tabulate [1; 1; 2; 1; 2]%nat (fun idx => Z.of_nat (foldr Nat.add O idx)).

(** A weight map of two frames of one pixel. *)
Definition demo_pixel_weight_map : tensor := tabulate [1; 1; 2; 1; 1]%nat (fun _ => 2).

(** * Properties *)

(** * Reasoning about the error monad *)

Lemma bind_Ok {A B} (m : result A) (f : A → result B) b :
  m ≫= f = Ok b ↔ ∃ a, m = Ok a ∧ f a = Ok b.
Proof.
  destruct m as [a|e]; simpl; split.
  - intros H. exists a. done.
  - intros (a' & [= ->] & H). done.
  - discriminate.
  - intros (a' & [=] & _).
Qed.

Lemma fmap_Ok {A B} (m : result A) (f : A → B) b :
  f <$> m = Ok b ↔ ∃ a, m = Ok a ∧ b = f a.
Proof.
  destruct m as [a|e]; simpl; split.
  - intros [= <-]. eauto.
  - intros (a' & [= ->] & ->). done.
  - discriminate.
  - intros (a' & [=] & _).
Qed.

Lemma assert_Ok c u : assert c = Ok u ↔ c = true.
Proof. destruct c, u; simpl; split; congruence. Qed.

(** Decomposes hypotheses stating that a computation in [result] returned. *)
Ltac ok_inv :=
  repeat match goal with
  | H : Ok _ = Ok _ |- _ => injection H as H; try subst
  | H : Raise _ = Ok _ |- _ => discriminate H
  | H : _ ≫= _ = Ok _ |- _ =>
      let a := fresh "a" in let Ha := fresh "Ha" in
      apply bind_Ok in H; destruct H as (a & Ha & H)
  | H : _ <$> _ = Ok _ |- _ =>
      let a := fresh "a" in let Ha := fresh "Ha" in
      apply fmap_Ok in H; destruct H as (a & Ha & H)
  | H : assert _ = Ok _ |- _ => apply assert_Ok in H
  end.

Lemma collect_Ok {A} (l : list (result A)) (r : list A) :
  collect l = Ok r ↔ Forall2 (fun m a => m = Ok a) l r.
Proof.
  revert r; induction l as [|m l IH]; intros r; simpl.
  - split; [intros [= <-]; constructor | inversion 1; done].
  - split.
    + intros H. ok_inv. constructor; [done | by apply IH].
    + inversion 1 as [|? a ? r' Hm Hl]; subst. simpl.
      apply IH in Hl. rewrite Hl. done.
Qed.

Lemma zip_exact_Ok {A B C} (f : A → B → result C) la lb r :
  zip_exact f la lb = Ok r →
  length la = length lb ∧ length r = length la ∧
  ∀ i a b, la !! i = Some a → lb !! i = Some b → ∃ c, r !! i = Some c ∧ f a b = Ok c.
Proof.
  revert lb r; induction la as [|a la IH]; intros [|b lb] r H; simpl in H;
    try discriminate H.
  - injection H as <-. split_and!; try done.
  - apply bind_Ok in H as (c & Hc & H). apply bind_Ok in H as (cs & Hcs & [= <-]).
    apply IH in Hcs as (Hl & Hr & Hi). simpl. split_and!; try congruence.
    intros [|i] a' b' ; simpl; [intros [= <-] [= <-]; eauto | eauto].
Qed.

(** * Induction on tensors *)

Section tensor_induction.
Variable P : tensor → Prop.
Hypothesis HSc : ∀ z, P (Sc z).
Hypothesis HAx : ∀ l, Forall P l → P (Ax l).

Fixpoint tensor_rect' (t : tensor) : P t :=
  match t with
  | Sc z => HSc z
  | Ax l =>
      HAx l ((fix go (l : list tensor) : Forall P l :=
                match l with
                | [] => Forall_nil_2 P
                | x :: l' => Forall_cons_2 P x l' (tensor_rect' x) (go l')
                end) l)
  end.
End tensor_induction.



Lemma tscale_one t : tscale t 1 = t.
Proof.
  induction t as [z|l IH] using tensor_rect'; unfold tscale in *; simpl.
  - f_equal. lia.
  - f_equal. induction IH; simpl; [done | congruence].
Qed.

(** * Zero tensors through the arithmetic *)

Lemma collect_map_Ok {A B} (g : A → result B) (l : list A) (r : list B) :
  collect (map g l) = Ok r ↔ Forall2 (fun a b => g a = Ok b) l r.
Proof. rewrite collect_Ok, Forall2_fmap_l. done. Qed.


Section zero_ops.
Variable f : Z → Z → Z.
Variables za zb : bool.
Hypothesis f_zero : ∀ x y, (za = true → x = 0) → (zb = true → y = 0) → f x y = 0.


End zero_ops.




(** * Zero layers *)






(** * Reasoning about the state monad *)

Lemma M_bind_eq {A B} (m : M A) (f : A → M B) w :
  (m ≫= f) w = match m w with
               | (Ok a, w') => f a w'
               | (Raise e, w') => (Raise e, w')
               end.
Proof. reflexivity. Qed.

Lemma M_bind_Ok {A B} (m : M A) (f : A → M B) w b w' :
  (m ≫= f) w = (Ok b, w') ↔ ∃ a w1, m w = (Ok a, w1) ∧ f a w1 = (Ok b, w').
Proof.
  rewrite M_bind_eq. destruct (m w) as [[a|e] w1]; split.
  - eauto.
  - intros (a' & w1' & [= -> ->] & H). done.
  - discriminate.
  - intros (a' & w1' & [=] & _).
Qed.

Lemma lift_Ok {A} (r : result A) w a w' : lift r w = (Ok a, w') ↔ r = Ok a ∧ w' = w.
Proof. unfold lift. split; [intros [= -> ->]; done | intros [-> ->]; done]. Qed.

Lemma M_bind_lift {A B} (r : result A) (f : A → M B) w :
  (lift r ≫= f) w = match r with Ok a => f a w | Raise e => (Raise e, w) end.
Proof. rewrite M_bind_eq. unfold lift. by destruct r. Qed.

Lemma M_bind_get {B} (f : Net → M B) w : (get_net ≫= f) w = f (net w) w.
Proof. reflexivity. Qed.

Lemma M_bind_modify {B} (f : Net → Net) (k : unit → M B) w :
  (modify_net f ≫= k) w
  = k tt (mkWorld (f (net w)) (grad_enabled w) (torch_rng w) (numpy_rng w)).
Proof. reflexivity. Qed.

Lemma M_bind_grad {B} (f : bool → M B) w : (is_grad_enabled ≫= f) w = f (grad_enabled w) w.
Proof. reflexivity. Qed.

Section hint_padding.
Context `{E : External}.

Lemma size_Ok t d n : size t d = Ok n ↔ shape t !! d = Some n.
Proof. unfold size. destruct (shape t !! d); split; congruence. Qed.

(** The padded hint has exactly [hint_channels] channels. *)
Lemma pad_channels_size hint hc c padded :
  size hint 1 = Ok c → Z.of_nat c < hc →
  pad_channels hint hc = Ok padded →
  size padded 1 = Ok (Z.to_nat hc).
Proof.
  intros Hc Hlt. unfold pad_channels. rewrite Hc. simpl.
  destruct (decide _); [|lia].
  apply size_Ok in Hc.
  destruct hint as [z|[|x0 la]]; try discriminate Hc.
  destruct x0 as [z|l0]; [discriminate Hc|].
  simpl in Hc. injection Hc as Hc.
  set (p := Z.to_nat (hc - Z.of_nat c)).
  assert (p = S (Nat.pred p)) as Hp by (unfold p; lia).
  simpl. rewrite Hp. simpl.
  intros H. apply fmap_Ok in H as (rs & Hrs & ->).
  unfold apply_zip in Hrs. simpl in Hrs.
  apply bind_Ok in Hrs as (r0 & Hr0 & Hrs).
  apply bind_Ok in Hrs as (rs' & _ & [= <-]).
  destruct (decide _); [|discriminate]. injection Hr0 as <-.
  apply size_Ok. simpl. rewrite length_app. simpl. rewrite length_replicate.
  f_equal. unfold p. lia.
Qed.

Lemma pad_channels_full hint hc c :
  size hint 1 = Ok c → ¬ Z.of_nat c < hc → pad_channels hint hc = Ok hint.
Proof. intros Hc Hlt. unfold pad_channels. rewrite Hc. simpl. by destruct (decide _). Qed.

End hint_padding.

Section channel_padding.
Context `{E : External}.

Lemma pad_channels_spec hint hc c :
  size hint 1 = Ok c → Z.of_nat c < hc →
  pad_channels hint hc = zero_pad_channels (Z.to_nat hc) hint.
Proof.
  intros Hc Hlt. unfold pad_channels, zero_pad_channels. rewrite Hc. simpl.
  destruct (decide _); [|lia]. apply size_Ok in Hc.
  destruct (shape hint) as [|B [|C rest]]; try discriminate Hc.
  injection Hc as ->.
  replace (Z.to_nat (hc - Z.of_nat c)) with (Z.to_nat hc - c)%nat by lia. done.
Qed.

(** Claim C9.  [encode_hint] raises (a failed assertion) for a hint with more
    than [hint_channels] channels, and for a hint with fewer channels it is
    the encoding of the hint zero-padded along the channel axis to
    [hint_channels] channels. *)
Theorem encode_hint_channel_padding hint fps pm dt w c :
  size hint 1 = Ok c →
  (hint_channels (net w) < Z.of_nat c →
   encode_hint hint fps pm dt w = (Raise AssertionError, w)) ∧
  (Z.of_nat c < hint_channels (net w) →
   encode_hint hint fps pm dt w
   = (padded ← lift (zero_pad_channels (Z.to_nat (hint_channels (net w))) hint);
      encode_hint padded fps pm dt) w).
Proof.
  intros Hc. split; intros Hlt.
  - unfold encode_hint. rewrite M_bind_get, M_bind_lift, Hc, M_bind_lift.
    rewrite bool_decide_eq_false_2 by lia. done.
  - rewrite M_bind_lift. rewrite <- (pad_channels_spec _ _ _ Hc Hlt).
    unfold encode_hint at 1. rewrite M_bind_get, M_bind_lift, Hc, M_bind_lift.
    rewrite bool_decide_eq_true_2 by lia. simpl. rewrite M_bind_lift.
    destruct (pad_channels hint (hint_channels (net w))) as [padded|e] eqn:Hpad; [|done].
    pose proof (pad_channels_size _ _ _ _ Hc Hlt Hpad) as Hsz.
    unfold encode_hint. rewrite M_bind_get, M_bind_lift, Hsz, M_bind_lift.
    rewrite bool_decide_eq_true_2 by lia. simpl. rewrite M_bind_lift.
    rewrite (pad_channels_full _ _ _ Hsz) by lia. done.
Qed.
End channel_padding.

(** * What [forward] keeps *)

Section keeps.
Context `{E : External}.
Variable I : World → Prop.
Variable g : bool.
Hypothesis I_grad : ∀ w, I w → grad_enabled w = g.
Hypothesis I_net : ∀ w n', I w → frozen n' = frozen (net w) →
  I (mkWorld n' (grad_enabled w) (torch_rng w) (numpy_rng w)).
Hypothesis I_rng : g = true → ∀ w t n, I w →
  I (mkWorld (net w) (grad_enabled w) t n).
Set Default Proof Using "All".

Lemma keeps_ret {A} (a : A) : keeps I (mret a).
Proof. intros w Hw. done. Qed.

Lemma keeps_lift {A} (r : result A) : keeps I (lift r).
Proof. intros w Hw. done. Qed.

Lemma keeps_raise {A} e : keeps I (raise e : M A).
Proof. intros w Hw. done. Qed.

Lemma keeps_get : keeps I get_net.
Proof. intros w Hw. done. Qed.

Lemma keeps_grad : keeps I is_grad_enabled.
Proof. intros w Hw. done. Qed.

Lemma keeps_bind {A B} (m : M A) (f : A → M B) :
  keeps I m → (∀ a, keeps I (f a)) → keeps I (m ≫= f).
Proof.
  intros Hm Hf w Hw. rewrite M_bind_eq. specialize (Hm w Hw).
  destruct (m w) as [[a|e] w1]; simpl in *; [by apply Hf | done].
Qed.

Lemma keeps_bind_grad {B} (f : bool → M B) :
  keeps I (f g) → keeps I (is_grad_enabled ≫= f).
Proof. intros Hf w Hw. rewrite M_bind_grad, (I_grad w Hw). by apply Hf. Qed.

Lemma keeps_with_active f : keeps I (modify_net (with_active f)).
Proof. intros w Hw. simpl. by apply I_net. Qed.

Lemma keeps_with_log f : keeps I (modify_net (with_log f)).
Proof. intros w Hw. simpl. by apply I_net. Qed.

Lemma keeps_torch_rand n : g = true → keeps I (torch_rand n).
Proof. intros Hg w Hw. simpl. by apply I_rng. Qed.

Lemma keeps_randint n : g = true → keeps I (np_random_randint n).
Proof.
  intros Hg w Hw. unfold np_random_randint. destruct (decide _); simpl; [done|].
  by apply I_rng.
Qed.

Ltac keeps_step :=
  first
    [ apply keeps_ret | apply keeps_lift | apply keeps_raise | apply keeps_get
    | apply keeps_grad | apply keeps_with_active | apply keeps_with_log
    | solve [eauto]
    | apply keeps_bind_grad
    | apply keeps_bind; [| intros ?]
    | match goal with
      | |- keeps _ (let '(_, _) := ?p in _) => destruct p
      | |- keeps _ (match ?x with _ => _ end) => destruct x
      end ].

Lemma keeps_prepare_hint x fps pm : keeps I (prepare_hint_embedded_sequence x fps pm).
Proof. unfold prepare_hint_embedded_sequence. repeat keeps_step. Qed.

Lemma keeps_embed_hint h fps pm dt : keeps I (embed_hint h fps pm dt).
Proof.
  unfold embed_hint. pose proof keeps_prepare_hint. repeat keeps_step.
Qed.

Lemma keeps_encode_hint h fps pm dt : keeps I (encode_hint h fps pm dt).
Proof. unfold encode_hint. pose proof keeps_embed_hint. repeat keeps_step. Qed.

Lemma keeps_encode_sources c encs h idxs : keeps I (encode_sources c encs h idxs).
Proof.
  induction idxs as [|i idxs IH]; simpl; pose proof keeps_encode_hint; repeat keeps_step.
Qed.

Lemma keeps_encode_guided_hints c h : keeps I (encode_guided_hints c h).
Proof.
  unfold encode_guided_hints.
  pose proof keeps_encode_hint. pose proof keeps_encode_sources. repeat keeps_step.
Qed.

Lemma keeps_source_inputs c l i d : keeps I (source_inputs c l i d).
Proof. unfold source_inputs. repeat keeps_step. Qed.

Lemma keeps_run_source c l i gh outs d : keeps I (run_source c l i gh outs d).
Proof. unfold run_source. pose proof keeps_source_inputs. repeat keeps_step. Qed.

Lemma keeps_run_sources c l ghs : ∀ i outs d, keeps I (run_sources c l ghs i outs d).
Proof.
  induction ghs as [|gh ghs IH]; intros i outs d; simpl;
    pose proof keeps_run_source; repeat keeps_step.
Qed.

Lemma keeps_branch_dropout b c B : (b = true → g = true) → keeps I (branch_dropout b c B).
Proof.
  intros Hb. unfold branch_dropout. destruct b; simpl; [|apply keeps_ret].
  pose proof (keeps_torch_rand B (Hb eq_refl)). repeat keeps_step.
Qed.

Lemma keeps_control_gates b c : (b = true → g = true) → keeps I (control_gates b c).
Proof.
  intros Hb. unfold control_gates. destruct b.
  - pose proof (λ n, keeps_randint n (Hb eq_refl)). repeat keeps_step.
  - repeat keeps_step.
Qed.

Lemma keeps_control_outs c fr h : keeps I (control_outs c fr h).
Proof.
  unfold control_outs.
  pose proof keeps_encode_guided_hints. pose proof keeps_run_sources.
  pose proof keeps_branch_dropout. pose proof keeps_control_gates.
  repeat keeps_step.
Qed.

Lemma keeps_forward c : keeps I (forward c).
Proof. unfold forward. pose proof keeps_control_outs. repeat keeps_step. Qed.

Unset Default Proof Using.
End keeps.

Lemma get_net_Ok w n w' : get_net w = (Ok n, w') → n = net w ∧ w' = w.
Proof. by intros [= <- <-]. Qed.

Lemma is_grad_enabled_Ok w b w' :
  is_grad_enabled w = (Ok b, w') → b = grad_enabled w ∧ w' = w.
Proof. by intros [= <- <-]. Qed.

Lemma modify_net_Ok f w u w' :
  modify_net f w = (Ok u, w') →
  w' = mkWorld (f (net w)) (grad_enabled w) (torch_rng w) (numpy_rng w).
Proof. by intros [= <-]. Qed.

Lemma mret_Ok {A} (a : A) w b w' : (mret a : M A) w = (Ok b, w') → b = a ∧ w' = w.
Proof. by intros [= <- <-]. Qed.

(** Peels the binds of a computation in [M] that is known to have returned. *)
Ltac m_clean :=
  repeat match goal with
  | H : get_net _ = (Ok _, _) |- _ => apply get_net_Ok in H as [-> ->]
  | H : is_grad_enabled _ = (Ok _, _) |- _ => apply is_grad_enabled_Ok in H as [-> ->]
  | H : modify_net _ _ = (Ok _, _) |- _ => apply modify_net_Ok in H as ->
  | H : lift _ _ = (Ok _, _) |- _ => apply lift_Ok in H as [H ->]
  | H : mret _ _ = (Ok _, _) |- _ => apply mret_Ok in H as [-> ->]
  end.

Ltac m_inv H :=
  repeat first
    [ rewrite M_bind_get in H
    | rewrite M_bind_grad in H
    | rewrite M_bind_modify in H
    | rewrite M_bind_lift in H
    | match type of H with
      | match ?r with Ok _ => _ | Raise _ => _ end = (Ok _, _) =>
          destruct r eqn:?; [|discriminate H]
      | (let '(_, _) := ?p in _) _ = _ => destruct p
      | (let '(_, _) := ?p in _) = _ => destruct p
      | mret _ _ = (Ok _, _) => injection H as H; try subst
      | (Raise _, _) = (Ok _, _) => discriminate H
      | raise _ _ = (Ok _, _) => discriminate H
      end
    | apply M_bind_Ok in H as (? & ? & ? & H) ];
  m_clean.

(** * Zero projections contribute nothing *)

Section zero_contributions.
Context `{E : External}.









(** The tables of source [i]: the ones of its hint encoder, or the model's own. *)
Lemma source_inputs_tables c l i d w si w' :
  source_inputs c l i d w = (Ok si, w') →
  (hint_encoders (net w) = None ∧ si_blocks si = blocks (parent (net w))
   ∧ si_zero_blocks si = zero_blocks (net w))
  ∨ (∃ encs e, hint_encoders (net w) = Some encs ∧ encs !! i = Some e
       ∧ si_blocks si = he_blocks e ∧ si_zero_blocks si = he_zero_blocks e).
Proof.
  intros H. unfold source_inputs in H. rewrite M_bind_get in H.
  destruct (hint_encoders (net w)) as [encs|] eqn:Henc.
  - destruct (encs !! i) as [e|] eqn:He; [|discriminate H].
    right. exists encs, e. m_inv H.
    match goal with
    | Hm : _ w = (Ok (_, _, _, _), _) |- _ =>
        rewrite M_bind_modify in Hm; injection Hm as <- <- <- <- <-
    end. done.
  - left. m_inv H.
    match goal with
    | Hm : _ w = (Ok (_, _, _, _), _) |- _ => injection Hm as <- <- <- <- <-
    end. done.
Qed.

End zero_contributions.

(** * The attributes [forward] never assigns *)

Section frozen.
Context `{E : External}.

Lemma same_frozen_refl w : same_frozen w w.
Proof. done. Qed.

Lemma same_frozen_grad w0 w : same_frozen w0 w → grad_enabled w = grad_enabled w0.
Proof. by intros [_ ?]. Qed.

Lemma same_frozen_net w0 w n' :
  same_frozen w0 w → frozen n' = frozen (net w) →
  same_frozen w0 (mkWorld n' (grad_enabled w) (torch_rng w) (numpy_rng w)).
Proof. intros [Hf Hg] Hn. split; simpl; congruence. Qed.

Lemma same_frozen_rng w0 : grad_enabled w0 = true → ∀ w t n,
  same_frozen w0 w → same_frozen w0 (mkWorld (net w) (grad_enabled w) t n).
Proof. intros _ w t n [Hf Hg]. split; simpl; congruence. Qed.


(** [forward] and its parts keep the frozen attributes and the autograd switch. *)
Lemma frozen_encode_guided_hints c h w : same_frozen w (encode_guided_hints c h w).2.
Proof.
  apply (keeps_encode_guided_hints _ _ (same_frozen_grad w) (same_frozen_net w)
           (same_frozen_rng w) c h w (same_frozen_refl w)).
Qed.

Lemma frozen_source_inputs c l i d w : same_frozen w (source_inputs c l i d w).2.
Proof.
  apply (keeps_source_inputs _ _ (same_frozen_grad w) (same_frozen_net w)
           (same_frozen_rng w) c l i d w (same_frozen_refl w)).
Qed.

Lemma frozen_run_source c l i gh outs d w : same_frozen w (run_source c l i gh outs d w).2.
Proof.
  apply (keeps_run_source _ _ (same_frozen_grad w) (same_frozen_net w)
           (same_frozen_rng w) c l i gh outs d w (same_frozen_refl w)).
Qed.

Lemma frozen_run_sources c l ghs i outs d w :
  same_frozen w (run_sources c l ghs i outs d w).2.
Proof.
  apply (keeps_run_sources _ _ (same_frozen_grad w) (same_frozen_net w)
           (same_frozen_rng w) c l ghs i outs d w (same_frozen_refl w)).
Qed.

Lemma frozen_forward c w : same_frozen w (forward c w).2.
Proof.
  apply (keeps_forward _ _ (same_frozen_grad w) (same_frozen_net w)
           (same_frozen_rng w) c w (same_frozen_refl w)).
Qed.

Lemma snd_of {A} (m : M A) w r w' : m w = (r, w') → (m w).2 = w'.
Proof. by intros ->. Qed.

(** * No-op at initialization *)



(** The steps of [control_outs] when it returns. *)
Lemma control_outs_Ok c fr h w outs w' :
  control_outs c fr h w = (Ok outs, w') →
  ∃ ghs w1 x1 d emb mask coin_flip w2 gates w3 d',
    encode_guided_hints c h w = (Ok ghs, w1) ∧
    reconcile_channels (net w1) c = Ok (x1, d) ∧
    prepare_crossattn (net w1) c = Ok (emb, mask) ∧
    branch_dropout (grad_enabled w) c (dB d)
      (mkWorld (with_log (set_crossattn (crossattn_emb c) (crossattn_mask c)) (net w1))
         (grad_enabled w1) (torch_rng w1) (numpy_rng w1)) = (Ok coin_flip, w2) ∧
    control_gates (grad_enabled w) c w2 = (Ok gates, w3) ∧
    run_sources c
      (mkLocals x1 emb mask fr coin_flip gates
         (expand_control_weight (control_weight c) (length ghs)))
      ghs 0 ∅ d w3 = (Ok (outs, d'), w') ∧
    same_frozen w w1 ∧ same_frozen w w2 ∧ same_frozen w w3.
Proof.
  intros H. unfold control_outs in H.
  apply M_bind_Ok in H as (ghs & w1 & Hg & H).
  pose proof (frozen_encode_guided_hints c h w) as Hw1.
  rewrite (snd_of _ _ _ _ Hg) in Hw1.
  m_inv H.
  match goal with
  | Hbd : branch_dropout ?b _ _ ?wa = (Ok ?cf, ?wb),
    Hcg : control_gates _ _ _ = (Ok ?gs, ?wc),
    Hrs : run_sources _ _ _ _ _ _ _ = (Ok (_, ?dd), _) |- _ =>
      assert (same_frozen w wa) as Hwa by (by apply same_frozen_net);
      assert (b = grad_enabled w) as Hgr by (simpl; by destruct Hw1);
      rewrite Hgr in Hbd, Hcg;
      assert (same_frozen w wb) as Hwb by
        (rewrite <- (snd_of _ _ _ _ Hbd);
         by apply (keeps_branch_dropout _ _ (same_frozen_grad w) (same_frozen_net w)
                     (same_frozen_rng w)));
      assert (same_frozen w wc) as Hwc by
        (rewrite <- (snd_of _ _ _ _ Hcg);
         by apply (keeps_control_gates _ _ (same_frozen_grad w) (same_frozen_net w)
                     (same_frozen_rng w)));
      exists ghs, w1; do 5 eexists; exists wb, gs, wc, dd
  end.
  split_and!; try eassumption; done.
Qed.









End frozen.

Section resampling.
Context `{E : External}.

Lemma range_from_length start step count : length (range_from start step count) = count.
Proof. revert start. induction count; intros; simpl; [done|]. by rewrite IHcount. Qed.

Lemma range_from_lookup start step count i :
  (i < count)%nat → range_from start step count !! i = Some (start + i * step)%nat.
Proof.
  revert start i. induction count as [|count IH]; intros start i Hi; [lia|].
  destruct i as [|i]; simpl; [f_equal; lia|].
  rewrite IH by lia. f_equal. lia.
Qed.

(** With [8 (T - 1) + 1] input frames, [range(1, tw, 8)] has [T - 1] members. *)
Lemma range_step_windows tw T :
  Z.of_nat tw = 8 * (Z.of_nat T - 1) + 1 →
  range_step 1 tw 8 = range_from 1 8 (T - 1).
Proof.
  intros H. unfold range_step. f_equal.
  assert (tw - 1 + 8 - 1 = 8 * (T - 1) + 7)%nat as -> by lia.
  symmetry. apply (Nat.div_unique _ 8 (T - 1) 7); lia.
Qed.

Lemma weight_map_windows_spec weight_map tw T :
  Z.of_nat tw = 8 * (Z.of_nat T - 1) + 1 →
  let windows := weight_map_windows weight_map tw in
  length windows = T ∧
  windows !! 0%nat
  = Some (if decide (5 ≤ ndim weight_map)%nat then narrow 2 0 1 weight_map
          else Raise IndexError) ∧
  (∀ t, (1 ≤ t)%nat → (t ≤ T - 1)%nat →
     windows !! t = Some (narrow 2 (8 * (t - 1) + 1) 8 weight_map)
     ∧ (8 * t < tw)%nat).
Proof.
  intros Heq windows. unfold windows, weight_map_windows.
  rewrite (range_step_windows _ _ Heq). split_and!.
  - cbn [length]. rewrite length_map, range_from_length. lia.
  - done.
  - intros t Ht1 Ht2. destruct t as [|t]; [lia|].
    replace (8 * (S t - 1) + 1)%nat with (1 + t * 8)%nat by lia.
    split; [|lia]. rewrite lookup_cons, list_lookup_fmap.
    rewrite range_from_lookup by lia. done.
Qed.

(** Claim C3.  A weight map whose shape is not the target [(T, H, W)] must
    have [8 (T - 1) + 1] frames, any other length fails the assertion; then
    [T] windows are interpolated: the leading frame alone, and for
    [1 <= t <= T - 1] the eight frames [8 (t - 1) + 1 .. 8 t], which all
    exist; the result is the concatenation along time of their [T]
    interpolations. *)
Theorem weight_map_resampling weight_map T H W tw :
  take 3 (drop 2 (shape weight_map)) ≠ [T; H; W] →
  size weight_map 2 = Ok tw →
  (Z.of_nat tw ≠ 8 * (Z.of_nat T - 1) + 1 →
   resample_weight_map weight_map T H W = Raise AssertionError) ∧
  (Z.of_nat tw = 8 * (Z.of_nat T - 1) + 1 →
   let windows := weight_map_windows weight_map tw in
   length windows = T ∧
   windows !! 0%nat
   = Some (if decide (5 ≤ ndim weight_map)%nat then narrow 2 0 1 weight_map
           else Raise IndexError) ∧
   (∀ t, (1 ≤ t)%nat → (t ≤ T - 1)%nat →
      windows !! t = Some (narrow 2 (8 * (t - 1) + 1) 8 weight_map)
      ∧ (8 * t < tw)%nat) ∧
   ∀ out, resample_weight_map weight_map T H W = Ok out →
     ∃ frames,
       length frames = T ∧
       Forall2 (fun w f => ∃ w', w = Ok w' ∧ interpolate_trilinear w' [1; H; W]%nat = Ok f)
         windows frames ∧
       ∃ f0 fs, frames = f0 :: fs ∧ cat_list 2 f0 fs = Ok out).
Proof.
  intros Hshape Htw. split.
  - intros Hne. unfold resample_weight_map.
    destruct (decide _) as [Heq|_]; [done|]. rewrite Htw.
    cbn [mbind result_bind]. rewrite (proj2 (Z.eqb_neq _ _) Hne). done.
  - intros Heq windows.
    destruct (weight_map_windows_spec weight_map tw T Heq) as (Hlen & H0 & Ht).
    split_and!; [exact Hlen|exact H0|exact Ht|].
    intros out Hout. unfold resample_weight_map in Hout.
    destruct (decide (take 3 _ = _)) as [Heq'|_]; [done|].
    apply bind_Ok in Hout as (tw' & Htw' & Hout).
    assert (tw' = tw) as -> by congruence.
    apply bind_Ok in Hout as (u & _ & Hout).
    apply bind_Ok in Hout as (frames & Hfr & Hout).
    apply collect_map_Ok in Hfr. fold windows in Hfr.
    exists frames. split_and!.
    + apply Forall2_length in Hfr. unfold windows in Hfr. lia.
    + eapply Forall2_impl; [exact Hfr|]. intros w f Hwf. cbn beta in Hwf.
      apply bind_Ok in Hwf as (w' & -> & Hf). eauto.
    + destruct frames as [|f0 fs]; [discriminate|]. eauto.
Qed.

End resampling.

Section layer_mask.
Context `{E : External}.

Lemma index_true_prefix n m :
  index_true (replicate n false ++ replicate m true)
  = if decide (m = 0)%nat then Raise ValueError else Ok n.
Proof.
  induction n as [|n IH]; simpl.
  - destruct m; simpl; done.
  - rewrite IH. by destruct (decide _).
Qed.

(** A valid configuration gives a prefix of [False] followed by [True]. *)
Lemma init_layer_mask_prefix a n N :
  ia_num_control_blocks a = Some n → ia_num_blocks a = Some N → 0 < n ≤ N →
  init_layer_mask a
  = Ok (Some (replicate (Z.to_nat n) false ++ replicate (Z.to_nat (N - n)) true)).
Proof.
  intros Hn HN Hr. unfold init_layer_mask. rewrite Hn, HN.
  destruct (decide _); [|lia]. rewrite bool_decide_eq_true_2 by lia. done.
Qed.

(** The control-block count is recovered when a pass-through block remains. *)
Lemma control_block_count_some n N :
  0 < n < N →
  index_true (replicate (Z.to_nat n) false ++ replicate (Z.to_nat (N - n)) true)
  = Ok (Z.to_nat n).
Proof. intros Hr. rewrite index_true_prefix. destruct (decide _); [lia|done]. Qed.

(** It is not when every block is a control block. *)
Lemma control_block_count_none n :
  index_true (replicate (Z.to_nat n) false ++ replicate (Z.to_nat (n - n)) true)
  = Raise ValueError.
Proof. rewrite index_true_prefix. destruct (decide _); [done|lia]. Qed.

End layer_mask.

Section injection.
Context `{E : External}.

(** Once the guided hint is consumed, the loop only applies the blocks. *)
Lemma run_blocks_consumed self bl zb k cwi coin_flip gates d rest :
  ∀ idx x outs xf gf outs',
    run_blocks self bl zb k cwi coin_flip gates d rest idx x None outs = Ok (xf, gf, outs') →
    chain k rest x = Ok xf ∧ gf = None.
Proof.
  induction rest as [|[name b] rest IH]; intros idx x outs xf gf outs' H; simpl in H.
  - by injection H as <- <- <-.
  - apply bind_Ok in H as (b0 & _ & H). apply bind_Ok in H as (_ & _ & H).
    apply bind_Ok in H as (x1 & Hx1 & H).
    apply bind_Ok in H as (gate & _ & H). apply bind_Ok in H as (cw & _ & H).
    apply bind_Ok in H as (v & _ & H). apply bind_Ok in H as (outs1 & _ & H).
    simpl. rewrite Hx1. simpl. eapply IH; eauto.
Qed.

(** With the guided hint at hand, the loop adds it to the output of the first
    block and goes on without it. *)
Lemma run_blocks_injection self bl zb k cwi coin_flip gates d
    name b rest idx x g outs xf gf outs' :
  run_blocks self bl zb k cwi coin_flip gates d ((name, b) :: rest) idx x (Some g) outs
  = Ok (xf, gf, outs') →
  ∃ x0 x1,
    call_block k b x = Ok x0 ∧ tadd x0 g = Ok x1 ∧
    chain k rest x1 = Ok xf ∧ gf = None ∧
    ∃ outs1,
      run_blocks self bl zb k cwi coin_flip gates d rest (S idx) x1 None outs1
      = Ok (xf, gf, outs').
Proof.
  intros H. simpl in H.
  apply bind_Ok in H as (b0 & _ & H). apply bind_Ok in H as (_ & _ & H).
  apply bind_Ok in H as (x0 & Hx0 & H). apply bind_Ok in H as (x1 & Hx1 & H).
  apply bind_Ok in H as (gate & _ & H). apply bind_Ok in H as (cw & _ & H).
  apply bind_Ok in H as (v & _ & H). apply bind_Ok in H as (outs1 & _ & H).
  exists x0, x1. destruct (run_blocks_consumed _ _ _ _ _ _ _ _ _ _ _ _ _ _ _ H) as [Hc ->].
  split_and!; eauto.
Qed.

(** Claim C8.  For every control source of a call, the blocks of its table
    run in the order of the table, from the embedded tokens; the guided hint
    of the source is added to the output of the first block, the loop goes
    on from position 1 without a guided hint, and the hidden state after the
    last block is what the remaining blocks alone make of that sum. *)
Theorem guided_hint_injected_once c l i guided_hint outs d w outs' d' w' :
  run_source c l i guided_hint outs d w = (Ok (outs', d'), w') →
  ∃ si,
    source_inputs c l i d w = (Ok si, w') ∧
    match si_blocks si with
    | [] => outs' = outs
    | (name, b) :: rest =>
        ∃ x0 x1 xf outs1,
          call_block (si_ctx si) b (si_x si) = Ok x0 ∧
          tadd x0 guided_hint = Ok x1 ∧
          chain (si_ctx si) rest x1 = Ok xf ∧
          run_blocks (si_self si) (si_blocks si) (si_zero_blocks si) (si_ctx si)
            (match loc_control_weight l !! i with
             | Some w => Ok w
             | None => Raise IndexError
             end)
            (loc_coin_flip l) (loc_gates l) (si_dims si) rest 1 x1 None outs1
          = Ok (xf, None, outs')
    end.
Proof.
  intros H. unfold run_source in H.
  apply M_bind_Ok in H as (si & w1 & Hsi & H). m_inv H.
  exists si. split; [done|].
  match goal with
  | Hr : run_blocks _ _ _ _ _ _ _ _ _ _ _ _ _ = Ok _ |- _ => rename Hr into Hrun
  end.
  destruct (si_blocks si) as [|[name b] rest] eqn:Hbl.
  - simpl in Hrun. by injection Hrun as _ _ <-.
  - apply run_blocks_injection in Hrun as (x0 & x1 & H0 & H1 & Hc & -> & outs1 & Hrest).
    exists x0, x1. eauto 10.
Qed.

End injection.

Section dropout.
Context `{E : External}.

Lemma flatten_singleton t : flatten (Ax [t]) = flatten t.
Proof. simpl. apply app_nil_r. Qed.

Lemma flatten_scalars (zs : list Z) : flatten (Ax (map Sc zs)) = zs.
Proof. simpl. induction zs as [|z zs IH]; simpl; [done|]. by rewrite IH. Qed.

Lemma flatten_wrapped (wrap : tensor → tensor) (zs : list Z) :
  (∀ z, flatten (wrap (Sc z)) = [z]) →
  flatten (Ax (map wrap (map Sc zs))) = zs.
Proof.
  intros Hw. simpl. induction zs as [|z zs IH]; simpl; [done|].
  rewrite Hw, IH. done.
Qed.

Lemma map_seq_from {A} (f : nat → A) k n :
  map f (seq k n) = map (fun i => f (k + i)%nat) (seq 0 n).
Proof.
  revert f k. induction n as [|n IH]; intros f k; simpl; [done|].
  rewrite Nat.add_0_r. f_equal.
  rewrite (IH f (S k)), (IH (fun i => f (k + i)%nat) 1%nat).
  apply map_ext. intros i. f_equal. lia.
Qed.

Lemma gate_of_spec p u :
  ((p < u)%Q → gate_of p u = 1) ∧ (¬ (p < u)%Q → gate_of p u = 0).
Proof.
  unfold gate_of. destruct (Qle_bool u p) eqn:Hle.
  - apply Qle_bool_iff in Hle. split; [|done]. intros Hlt.
    exfalso. by apply (Qlt_not_le _ _ Hlt).
  - split; [done|]. intros Hn. exfalso. apply Hn. apply Qnot_le_lt.
    intros Hle'. apply Qle_bool_iff in Hle'. congruence.
Qed.

Lemma drawn_gates c B w block0 :
  grad_enabled w && existsb id (requires_grad (base_model c)) = true →
  lookup_name "block0" (blocks (parent (net w))) = Ok block0 →
  ∃ ct,
    branch_dropout (grad_enabled w) c B w
    = (Ok (CoinTensor ct),
       mkWorld (net w) (grad_enabled w) (torch_rng w + B) (numpy_rng w)) ∧
    flatten ct
    = map (fun i => gate_of (dropout_ctrl_branch (net w)) (torch_uniform (torch_rng w + i)))
        (seq 0 B).
Proof.
  intros Hj Hb0. unfold branch_dropout. rewrite Hj.
  rewrite M_bind_eq. cbn [torch_rand]. rewrite M_bind_get, M_bind_lift.
  cbn [net]. rewrite Hb0.
  set (us := map torch_uniform (seq (torch_rng w) B)).
  set (zs := map (fun i => gate_of (dropout_ctrl_branch (net w))
                             (torch_uniform (torch_rng w + i))) (seq 0 B)).
  assert (map (fun u => Sc (if Qle_bool u (dropout_ctrl_branch (net w)) then 0 else 1)) us
          = map Sc zs) as ->.
  { unfold us, zs. rewrite !map_map. rewrite (map_seq_from _ (torch_rng w)). done. }
  destruct (String.eqb _ _); [|destruct (String.eqb _ _)]; eexists; (split; [reflexivity|]).
  - rewrite !flatten_singleton. apply flatten_wrapped. intros z. simpl. done.
  - apply flatten_wrapped. intros z. done.
  - apply flatten_scalars.
Qed.

(** Claim C5.  Unless gradients are tracked and the base model has a trainable
    parameter, the gate is the number 1, it changes nothing it multiplies and
    no draw is taken; in that joint case exactly one uniform value per batch
    element is drawn, and the gate of an element is 1 when its value exceeds
    [dropout_ctrl_branch] and 0 otherwise; a call of [forward] outside
    gradient tracking takes no draw from either generator. *)
Theorem branch_dropout_gate c B w :
  let joint := grad_enabled w && existsb id (requires_grad (base_model c)) in
  (joint = false →
   branch_dropout (grad_enabled w) c B w = (Ok CoinOne, w) ∧
   ∀ t, mul_coin t CoinOne = Ok t) ∧
  (joint = true → ∀ block0,
   lookup_name "block0" (blocks (parent (net w))) = Ok block0 →
   ∃ ct,
     branch_dropout (grad_enabled w) c B w
     = (Ok (CoinTensor ct),
        mkWorld (net w) (grad_enabled w) (torch_rng w + B) (numpy_rng w)) ∧
     length (flatten ct) = B ∧
     ∀ i, (i < B)%nat →
       ∃ z, flatten ct !! i = Some z ∧
         let u := torch_uniform (torch_rng w + i) in
         ((dropout_ctrl_branch (net w) < u)%Q → z = 1) ∧
         (¬ (dropout_ctrl_branch (net w) < u)%Q → z = 0)) ∧
  (grad_enabled w = false → ∀ r w',
   forward c w = (r, w') → torch_rng w' = torch_rng w ∧ numpy_rng w' = numpy_rng w).
Proof.
  intros joint. split_and!.
  - intros Hj. unfold branch_dropout. fold joint. rewrite Hj. split; [done|].
    intros t. simpl. by rewrite tscale_one.
  - intros Hj block0 Hb0.
    destruct (drawn_gates c B w block0 Hj Hb0) as (ct & Hrun & Hflat).
    exists ct. split_and!; [exact Hrun | by rewrite Hflat, length_map, length_seq |].
    intros i Hi. rewrite Hflat, list_lookup_fmap, lookup_seq_lt by done.
    eexists. split; [reflexivity|]. apply gate_of_spec.
  - intros Hg r w' H.
    pose proof (keeps_forward (quiet (torch_rng w) (numpy_rng w)) false) as Hk.
    unfold quiet in Hk. specialize (Hk ltac:(by intros ? [? _])
      ltac:(by intros ? ? ? _) ltac:(done) c w ltac:(done)).
    rewrite H in Hk. simpl in Hk. by destruct Hk as (_ & ? & ?).
Qed.

End dropout.

Section bypass.
Context `{E : External}.

(** Claim C2, amended.  When the auxiliary arguments hold [None] under
    [hint_key], [forward] returns what the backbone returns on the original
    arguments (the auxiliary ones without the hint entry) and no [x_ctrl],
    and leaves the state as it is. *)
Theorem bypass_on_none_hint c w k :
  hint_key c = Some k → kwargs c !! k = Some PyNone →
  forward c w
  = (base_net_forward (base_net (base_model c)) (base_args c (delete k (kwargs c))) None, w).
Proof.
  intros Hk Hv. unfold forward, pop. rewrite M_bind_lift, Hk, Hv. done.
Qed.

(** Without an entry under [hint_key] the call raises before it reaches the backbone. *)
Lemma forward_without_hint_entry c w :
  hint_key c ≫= (fun k => kwargs c !! k) = None →
  forward c w = (Raise KeyError, w).
Proof.
  intros H. unfold forward, pop. rewrite M_bind_lift.
  destruct (hint_key c) as [k|]; [|done]. simpl in H. by rewrite H.
Qed.

End bypass.

Section gating.
Context `{E : External}.
















End gating.

(** Runs through a computation that only reads the state. *)
Ltac m_pure :=
  repeat first
    [ done
    | rewrite M_bind_get
    | rewrite M_bind_grad
    | rewrite M_bind_lift
    | match goal with
      | |- context [match ?r with Ok _ => _ | Raise _ => _ end] => destruct r
      | |- context [let '(_, _) := ?p in _] => destruct p
      | |- context [if ?b then _ else _] => destruct b
      end ].

Section selection.
Context `{E : External}.

Lemma prepare_hint_world h fps pm w : (prepare_hint_embedded_sequence h fps pm w).2 = w.
Proof. unfold prepare_hint_embedded_sequence. m_pure. Qed.

Lemma embed_hint_world h fps pm dt w : (embed_hint h fps pm dt w).2 = w.
Proof.
  unfold embed_hint. rewrite M_bind_get, M_bind_lift.
  destruct (assert _); [|done]. rewrite M_bind_eq.
  pose proof (prepare_hint_world h fps pm w) as Hw.
  destruct (prepare_hint_embedded_sequence h fps pm w) as [[[t o]|e] w1]; simpl in Hw;
    subst w1; [|done].
  m_pure.
Qed.

Lemma encode_hint_world h fps pm dt w : (encode_hint h fps pm dt w).2 = w.
Proof.
  unfold encode_hint. rewrite M_bind_get, M_bind_lift. destruct (size h 1); [|done].
  rewrite M_bind_lift. destruct (assert _); [|done].
  rewrite M_bind_lift. destruct (pad_channels _ _); [|done].
  apply embed_hint_world.
Qed.

Lemma branch_dropout_net b c B w : net (branch_dropout b c B w).2 = net w.
Proof.
  unfold branch_dropout. destruct (b && _); [|done].
  rewrite M_bind_eq. cbn [torch_rand]. m_pure.
Qed.

Lemma control_gates_net b c w : net (control_gates b c w).2 = net w.
Proof.
  unfold control_gates. rewrite M_bind_get, M_bind_lift.
  destruct (index_true _); [|done].
  destruct (random_drop_control_blocks _); [|done].
  destruct b; [|by destruct (_ =? _)].
  rewrite M_bind_eq. unfold np_random_randint. by destruct (decide _).
Qed.

Lemma encode_sources_cons c encs h i idxs :
  encode_sources c encs h (i :: idxs)
  = (e ← lift (match encs !! i with Some e => Ok e | None => Raise IndexError end);
     _ ← modify_net (with_active (select_encoder e));
     hint_i ← lift (select 1 i h);
     g ← encode_hint hint_i (fps c) (padding_mask c) (data_type c);
     gs ← encode_sources c encs h idxs;
     mret (g :: gs)).
Proof. reflexivity. Qed.

Lemma encode_sources_step c encs h i idxs w ghs w' :
  encode_sources c encs h (i :: idxs) w = (Ok ghs, w') →
  ∃ e g gs,
    encs !! i = Some e ∧ ghs = g :: gs ∧
    encode_sources c encs h idxs
      (mkWorld (with_active (select_encoder e) (net w)) (grad_enabled w)
         (torch_rng w) (numpy_rng w)) = (Ok gs, w').
Proof.
  intros H. rewrite encode_sources_cons, M_bind_lift in H.
  destruct (encs !! i) as [e|]; [|discriminate]. exists e.
  rewrite M_bind_modify, M_bind_lift in H.
  destruct (select 1 i h) as [hi|]; [|discriminate].
  apply M_bind_Ok in H as (g & w1 & Hg & H).
  pose proof (encode_hint_world hi (fps c) (padding_mask c) (data_type c)
                (mkWorld (with_active (select_encoder e) (net w)) (grad_enabled w)
                   (torch_rng w) (numpy_rng w))) as Hw.
  rewrite Hg in Hw. simpl in Hw. subst w1.
  apply M_bind_Ok in H as (gs & w2 & Hgs & H).
  apply mret_Ok in H as [-> ->]. eauto.
Qed.

(** After the loop over the sources the three collaborators of the hint path
    are those of the last source. *)
Lemma encode_sources_last c encs h pre : ∀ i w ghs w',
  encode_sources c encs h (pre ++ [i]) w = (Ok ghs, w') →
  ∃ e, encs !! i = Some e ∧ length ghs = S (length pre) ∧
    active (net w')
    = mkActive (he_input_hint_block e) (he_pos_embedder e) (he_x_embedder2 e)
        (x_embedder (active (net w))) (extra_pos_embedder (active (net w))) ∧
    log (net w') = log (net w).
Proof.
  induction pre as [|j pre IH]; intros i w ghs w' H.
  - apply encode_sources_step in H as (e & g & gs & He & -> & H).
    simpl in H. apply mret_Ok in H as [-> ->]. exists e. done.
  - simpl in H. apply encode_sources_step in H as (e0 & g & gs & _ & -> & H).
    apply IH in H as (e & He & Hlen & Hact & Hlog). exists e.
    split_and!; [done|simpl; lia|exact Hact|exact Hlog].
Qed.

(** What one control source assigns in the second loop (lines 328-329 and 372-373). *)
Lemma source_inputs_net c l i d w si w' encs :
  hint_encoders (net w) = Some encs →
  source_inputs c l i d w = (Ok si, w') →
  ∃ e info emb,
    encs !! i = Some e ∧
    net w'
    = with_log (set_affline info emb)
        (with_active (select_embedders e) (net w)).
Proof.
  intros Henc H. unfold source_inputs in H. rewrite M_bind_get, Henc in H.
  destruct (encs !! i) as [e|] eqn:He; [|discriminate H].
  exists e. m_inv H.
  match goal with
  | Hm : _ w = (Ok (_, _, _, _), _) |- _ =>
      rewrite M_bind_modify in Hm; injection Hm as <- <- <- <- <-
  end.
  match goal with
  | Hm : match scalar_feature c with _ => _ end _ = _ |- _ =>
      destruct (scalar_feature c); [discriminate Hm|]; apply mret_Ok in Hm as [_ ->]
  end.
  simpl. eauto.
Qed.

Lemma run_source_world c l i gh outs d w r w' :
  run_source c l i gh outs d w = (Ok r, w') →
  ∃ si, source_inputs c l i d w = (Ok si, w').
Proof.
  intros H. unfold run_source in H. apply M_bind_Ok in H as (si & w1 & Hsi & H).
  m_inv H. eauto.
Qed.

Lemma run_sources_last c l encs pre : ∀ gh i outs d w r w',
  hint_encoders (net w) = Some encs →
  run_sources c l (pre ++ [gh]) i outs d w = (Ok r, w') →
  ∃ e, encs !! (i + length pre)%nat = Some e ∧
    active (net w')
    = mkActive (input_hint_block (active (net w))) (pos_embedder (active (net w)))
        (x_embedder2 (active (net w))) (he_x_embedder e) (he_extra_pos_embedder e).
Proof.
  induction pre as [|g0 pre IH]; intros gh i outs d w r w' Henc H; simpl in H.
  - apply M_bind_Ok in H as ([o1 d1] & w1 & H1 & H). apply mret_Ok in H as [_ ->].
    apply run_source_world in H1 as (si & Hsi).
    apply (source_inputs_net _ _ _ _ _ _ _ _ Henc) in Hsi as (e & info & emb & He & ->).
    exists e. rewrite Nat.add_0_r. done.
  - apply M_bind_Ok in H as ([o1 d1] & w1 & H1 & H).
    apply run_source_world in H1 as (si & Hsi).
    apply (source_inputs_net _ _ _ _ _ _ _ _ Henc) in Hsi as (e0 & info & emb & He0 & Hn).
    apply IH in H as (e & He & Hact); [|by rewrite Hn].
    exists e. replace (i + length (g0 :: pre))%nat with (S i + length pre)%nat
      by (simpl; lia).
    split; [exact He|]. rewrite Hact, Hn. done.
Qed.

(** Claim C10, amended.  A call over [n + 1] control sources that returns
    leaves the attributes [forward] never assigns as they were, and leaves
    the five collaborator attributes of the model assigned to those of the
    last source's hint encoder. *)
Theorem per_source_selection c w out w' encs h kw n :
  hint_encoders (net w) = Some encs →
  pop (kwargs c) (hint_key c) = Ok (PyTensor h, kw) →
  size h 1 = Ok (S n) →
  forward c w = (Ok out, w') →
  frozen (net w') = frozen (net w) ∧
  ∃ e, encs !! n = Some e ∧
    active (net w')
    = mkActive (he_input_hint_block e) (he_pos_embedder e) (he_x_embedder2 e)
        (he_x_embedder e) (he_extra_pos_embedder e).
Proof.
  intros Henc Hpop Hsz H. split.
  { pose proof (frozen_forward c w) as [Hfr _]. by rewrite H in Hfr. }
  unfold forward in H. rewrite M_bind_lift, Hpop in H.
  apply M_bind_Ok in H as (outs & w4 & Ho & H). apply lift_Ok in H as [_ ->].
  apply control_outs_Ok in Ho
    as (ghs & w1 & x1 & d & emb & mask & cf & w2 & gates & w3 & d' &
        Hg & _ & _ & Hbd & Hcg & Hrs & _ & _ & [Hfr3 _]).
  unfold encode_guided_hints in Hg. rewrite M_bind_get, Henc, M_bind_lift, Hsz in Hg.
  rewrite seq_S in Hg. simpl in Hg.
  apply encode_sources_last in Hg as (e & He & Hlen & Hact & _).
  pose proof (branch_dropout_net (grad_enabled w) c (dB d)
    (mkWorld (with_log (set_crossattn (crossattn_emb c) (crossattn_mask c)) (net w1))
       (grad_enabled w1) (torch_rng w1) (numpy_rng w1))) as Hn2.
  rewrite Hbd in Hn2. simpl in Hn2.
  pose proof (control_gates_net (grad_enabled w) c w2) as Hn3.
  rewrite Hcg in Hn3. simpl in Hn3.
  destruct (exists_last (l := ghs)) as (pre & gh & ->).
  { intros ->. discriminate. }
  rewrite length_app, length_seq in Hlen. simpl in Hlen.
  apply (run_sources_last _ _ encs) in Hrs as (e' & He' & Hact').
  2:{ unfold frozen in Hfr3. injection Hfr3 as _ _ _ _ _ _ _ _ Hh. by rewrite Hh. }
  assert (length pre = n) as Hpre by lia.
  rewrite Hpre in He'. simpl in He'.
  assert (e' = e) as -> by congruence.
  exists e. split; [done|]. rewrite Hact', Hn3, Hn2. simpl. rewrite Hact. done.
Qed.

(** The single-encoder path rejects several sources while gradients are tracked. *)
Lemma single_encoder_rejects_multi_source_training c h w g w1 hb xb chunks :
  hint_encoders (net w) = None →
  encode_hint h (fps c) (padding_mask c) (data_type c) w = (Ok g, w1) →
  size h 0 = Ok hb → size (x c) 0 = Ok xb → xb ≠ 0%nat →
  chunk g (hb / xb) 3 = Ok chunks → length chunks ≠ 1%nat →
  grad_enabled w = true →
  encode_guided_hints c h w = (Raise AssertionError, w).
Proof.
  intros Hnone Hg Hhb Hxb Hx0 Hch Hlen Hgrad.
  pose proof (encode_hint_world h (fps c) (padding_mask c) (data_type c) w) as Hw.
  rewrite Hg in Hw. simpl in Hw. subst w1.
  unfold encode_guided_hints. rewrite M_bind_get, Hnone, M_bind_eq, Hg.
  rewrite M_bind_lift, Hhb, M_bind_lift, Hxb.
  destruct (decide _); [done|]. rewrite M_bind_lift, Hch, M_bind_grad, Hgrad.
  rewrite M_bind_lift. rewrite bool_decide_eq_false_2 by done. done.
Qed.

End selection.

(** * The properties on the small instance *)

Lemma demo_net_init : init demo_init_args = Ok demo_net.
Proof. vm_compute. reflexivity. Qed.


Lemma bypass_on_none_hint_witness :
  forward (demo_call {["hint" := PyNone]} (-1)) (demo_world demo_net true)
  = (base_net_forward 9%nat
       (base_args (demo_call {["hint" := PyNone]} (-1)) (delete "hint" {["hint" := PyNone]}))
       None,
     demo_world demo_net true).
Proof.
  exact (bypass_on_none_hint (demo_call {["hint" := PyNone]} (-1))
           (demo_world demo_net true) "hint" eq_refl eq_refl).
Defined.

(** Claim C2 as stated fails: with no entry under [hint_key] the call raises
    [KeyError], although the backbone returns on the same arguments. *)
Lemma bypass_needs_a_hint_entry :
  kwargs (demo_call ∅ (-1)) !! "hint" = None ∧
  forward (demo_call ∅ (-1)) (demo_world demo_net false)
  = (Raise KeyError, demo_world demo_net false) ∧
  base_net_forward 9%nat (base_args (demo_call ∅ (-1)) ∅) None = Ok demo_output.
Proof. split_and!; vm_compute; reflexivity. Qed.

Lemma weight_map_resampling_witness :
  length (weight_map_windows demo_weight_map 9) = 2%nat ∧
  weight_map_windows demo_weight_map 9 !! 1%nat
  = Some (narrow 2 (8 * (1 - 1) + 1) 8 demo_weight_map) ∧
  is_ok (resample_weight_map demo_weight_map 2 1 1) = true.
Proof.
  assert (take 3 (drop 2 (shape demo_weight_map)) ≠ [2; 1; 1]%nat) as H1
    by (vm_compute; discriminate).
  assert (size demo_weight_map 2 = Ok 9%nat) as H2 by (vm_compute; reflexivity).
  destruct (weight_map_resampling demo_weight_map 2 1 1 9 H1 H2) as [_ H].
  destruct (H eq_refl) as (Hlen & _ & Ht & _).
  split_and!; [exact Hlen | exact (proj1 (Ht 1%nat (le_n 1) (le_n 1))) | vm_compute; reflexivity].
Defined.





Lemma branch_dropout_gate_witness :
  branch_dropout false (demo_hint_call demo_hint (-1)) 1 (demo_world demo_net false)
  = (Ok CoinOne, demo_world demo_net false).
Proof.
  exact (proj1 (proj1 (branch_dropout_gate (demo_hint_call demo_hint (-1)) 1
                         (demo_world demo_net false)) eq_refl)).
Defined.

Lemma guided_hint_injected_once_witness :
  ∃ si x0 x1,
    (source_inputs (demo_hint_call demo_hint (-1)) demo_locals 0 (mkDims 1 1 1 2)
       (demo_world demo_trained_net false)).1 = Ok si ∧
    call_block (si_ctx si) (mkBlock 10%nat "THWBD") (si_x si) = Ok x0 ∧
    tadd x0 demo_guided_hint = Ok x1 ∧
    chain (si_ctx si) [("block1", mkBlock 11%nat "THWBD")] x1
    = Ok (Ax [Ax [Ax [Ax [Ax [Sc 33; Sc 34]]; Ax [Ax [Sc 34; Sc 35]]]]]).
Proof.
  destruct (run_source (demo_hint_call demo_hint (-1)) demo_locals 0 demo_guided_hint ∅
              (mkDims 1 1 1 2) (demo_world demo_trained_net false))
    as [[[outs' d']|e] w'] eqn:H; [|vm_compute in H; discriminate H].
  destruct (guided_hint_injected_once _ _ _ _ _ _ _ _ _ _ H) as (si & Hsi & Hrun).
  exists si. rewrite Hsi. vm_compute in Hsi. injection Hsi as <- _.
  cbn [si_blocks] in Hrun.
  destruct Hrun as (x0 & x1 & xf & outs1 & H0 & H1 & Hc & _).
  exists x0, x1. split_and!; [reflexivity | exact H0 | exact H1 |].
  rewrite Hc.
  vm_compute in H0. injection H0 as <-.
  vm_compute in H1. injection H1 as <-.
  vm_compute in Hc. symmetry. exact Hc.
Defined.

Lemma encode_hint_channel_padding_witness :
  encode_hint demo_hint None None (Some VIDEO) (demo_world demo_net false)
  = (padded ← lift (zero_pad_channels 2 demo_hint);
     encode_hint padded None None (Some VIDEO)) (demo_world demo_net false).
Proof.
  refine (proj2 (encode_hint_channel_padding demo_hint None None (Some VIDEO)
                   (demo_world demo_net false) 1 _) _); vm_compute; reflexivity.
Defined.

Lemma per_source_selection_witness :
  active (net (forward (demo_hint_call demo_multi_hint (-1)) (demo_world demo_multi_net false)).2)
  = mkActive (SiLU :: input_hint_block (active demo_net)) 30%nat 30%nat 30%nat 30%nat.
Proof.
  pose (c := demo_hint_call demo_multi_hint (-1)).
  pose (w := demo_world demo_multi_net false).
  assert (pop (kwargs c) (hint_key c) = Ok (PyTensor demo_multi_hint, ∅)) as Hpop
    by (vm_compute; reflexivity).
  assert (size demo_multi_hint 1 = Ok 2%nat) as Hsz by (vm_compute; reflexivity).
  assert (forward c w = (Ok demo_output, (forward c w).2)) as Hfw
    by (vm_compute; reflexivity).
  destruct (per_source_selection c w demo_output (forward c w).2
              [demo_encoder 20%nat; demo_encoder 30%nat] demo_multi_hint ∅ 1%nat
              eq_refl Hpop Hsz Hfw) as (_ & e & He & Hact).
  injection He as <-. exact Hact.
Defined.

(** Claim C10 as stated fails: after a call over two control sources the
    hint cascade, the positional embedder and the hint patch embedder of the
    model are those of the last source's encoder. *)
Lemma per_source_selection_mutates_the_model :
  pos_embedder (active (net (demo_world demo_multi_net false))) = 5%nat ∧
  x_embedder2 (active (net (demo_world demo_multi_net false))) = 6%nat ∧
  is_ok (forward (demo_hint_call demo_multi_hint (-1)) (demo_world demo_multi_net false)).1
  = true ∧
  pos_embedder
    (active (net (forward (demo_hint_call demo_multi_hint (-1))
                    (demo_world demo_multi_net false)).2)) = 30%nat ∧
  x_embedder2
    (active (net (forward (demo_hint_call demo_multi_hint (-1))
                    (demo_world demo_multi_net false)).2)) = 30%nat ∧
  hd SiLU (input_hint_block (active demo_multi_net)) ≠
  hd SiLU (input_hint_block
             (active (net (forward (demo_hint_call demo_multi_hint (-1))
                             (demo_world demo_multi_net false)).2))).
Proof. split_and!; try (vm_compute; reflexivity). vm_compute. discriminate. Qed.

(** Claim C6 at its failing input: with hint encoders attached, two control
    sources and gradients tracked, [forward] returns. *)
Lemma multi_source_training_not_rejected :
  grad_enabled (demo_world demo_multi_net true) = true ∧
  size demo_multi_hint 1 = Ok 2%nat ∧
  forward (demo_hint_call demo_multi_hint (-1)) (demo_world demo_multi_net true)
  = (Ok demo_output,
     (forward (demo_hint_call demo_multi_hint (-1)) (demo_world demo_multi_net true)).2).
Proof. split_and!; vm_compute; reflexivity. Qed.

(** The sibling path: two sources stacked along the batch axis are rejected
    while gradients are tracked, and accepted otherwise. *)
Lemma stacked_sources_rejected_in_training :
  (forward (demo_hint_call demo_stacked_hint (-1)) (demo_world demo_net true)).1
  = Raise AssertionError ∧
  (forward (demo_hint_call demo_stacked_hint (-1)) (demo_world demo_net false)).1
  = Ok demo_output.
Proof. split; vm_compute; reflexivity. Qed.

(** Claim C7 at its failing input: [num_control_blocks = num_blocks = 2]
    passes the constructor's assertion and gives a mask without [True], on
    which [forward] raises [ValueError]. *)
Lemma all_control_blocks_break_forward :
  init demo_full_args = Ok demo_full_net ∧
  init_layer_mask demo_full_args = Ok (Some [false; false]) ∧
  layer_mask demo_full_net = [false; false] ∧
  index_true (layer_mask demo_full_net) = Raise ValueError ∧
  (forward (demo_hint_call demo_hint (-1)) (demo_world demo_full_net false)).1
  = Raise ValueError.
Proof. split_and!; vm_compute; reflexivity. Qed.

(** * Shapes under concatenation *)

Section input_channels.
Context `{E : External}.

Lemma has_shape_shape s : ∀ t, has_shape s t = true → shape t = shape (zeros s).
Proof.
  induction s as [|n s IH]; intros [z|l] H; simpl in H; try discriminate H; [done|].
  apply andb_true_iff in H as [Hn Hl]. apply bool_decide_eq_true in Hn. subst n.
  destruct l as [|x l]; [done|]. simpl in *.
  apply andb_true_iff in Hl as [Hx _]. rewrite length_replicate. f_equal. by apply IH.
Qed.

Lemma zip_exact_total {A B C} (f : A → B → result C) la : ∀ lb,
  length la = length lb →
  (∀ a b, a ∈ la → b ∈ lb → is_ok (f a b) = true) →
  ∃ r, zip_exact f la lb = Ok r.
Proof.
  induction la as [|a la IH]; intros [|b lb] Hl Hf; try discriminate Hl.
  - by exists [].
  - simpl. pose proof (Hf a b ltac:(left) ltac:(left)) as Hab.
    destruct (f a b) as [c|e]; [|discriminate Hab]. simpl.
    destruct (IH lb) as (cs & ->); [by injection Hl| |by eexists].
    intros a' b' Ha' Hb'. apply Hf; by right.
Qed.

(** Concatenation along the channel axis adds the channels of the operands
    and keeps the other extents of the first one. *)
Lemma cat_channels_shape a b r B C rest :
  cat 1 a b = Ok r → shape a = B :: C :: rest → C ≠ O →
  ∃ Cb, size b 1 = Ok Cb ∧ shape r = B :: (C + Cb)%nat :: rest.
Proof.
  intros H Hs HC.
  destruct a as [z|[|a0 la]]; try discriminate Hs.
  destruct a0 as [z|[|x0 la0]]; try discriminate Hs.
  { simpl in Hs. injection Hs as <- <- <-. done. }
  destruct b as [z|lb]; [discriminate H|].
  simpl in H. apply fmap_Ok in H as (rs & Hrs & ->).
  unfold apply_zip in Hrs. destruct lb as [|b0 lb]; [discriminate Hrs|].
  simpl in Hrs. apply bind_Ok in Hrs as (r0 & Hr0 & Hrs).
  apply bind_Ok in Hrs as (rs' & Hrs' & [= <-]).
  destruct b0 as [z|lb0]; [discriminate Hr0|].
  destruct (decide _); [|discriminate Hr0]. injection Hr0 as <-.
  apply zip_exact_Ok in Hrs' as (Hl1 & Hl2 & _). rewrite length_map in Hl1, Hl2.
  simpl in Hs. injection Hs as <- <- <-.
  exists (length lb0). split; [done|].
  simpl. rewrite Hl2, length_app. done.
Qed.

Lemma cat_list_channels_shape ts : ∀ a r B C rest,
  cat_list 1 a ts = Ok r → shape a = B :: C :: rest → C ≠ O →
  shape r = B :: (C + channels ts)%nat :: rest.
Proof.
  induction ts as [|t ts IH]; intros a r B C rest H Hs HC; simpl in H.
  - injection H as <-. unfold channels. simpl. by rewrite Nat.add_0_r.
  - apply bind_Ok in H as (tu & Htu & H).
    destruct (cat_channels_shape _ _ _ _ _ _ Htu Hs HC) as (Cb & Hb & Hsu).
    rewrite (IH _ _ _ _ _ H Hsu) by lia.
    unfold channels. simpl. apply size_Ok in Hb. rewrite Hb. simpl.
    f_equal. f_equal. lia.
Qed.

(** A rectangular tensor can be filled up with zero channels. *)
Lemma cat_zeros_total a B C p rest :
  has_shape (B :: C :: rest) a = true →
  ∃ r, cat 1 a (zeros (B :: p :: rest)) = Ok r.
Proof.
  intros H. destruct a as [z|la]; [discriminate H|]. simpl in H.
  apply andb_true_iff in H as [HB Hla]. apply bool_decide_eq_true in HB.
  simpl. unfold apply_zip.
  destruct (zip_exact_total (fun g y => g y) (map (cat 0) la)
              (replicate B (Ax (replicate p (zeros rest))))) as (rs & Hrs).
  - by rewrite length_map, length_replicate.
  - intros g y Hg Hy. apply list_elem_of_fmap in Hg as (ai & -> & Hai).
    apply elem_of_replicate in Hy as [-> _].
    rewrite forallb_forall in Hla. specialize (Hla ai).
    rewrite <- list_elem_of_In in Hla. specialize (Hla Hai).
    destruct ai as [z|li]; [discriminate Hla|]. simpl in Hla.
    apply andb_true_iff in Hla as [_ Hli]. simpl.
    destruct (decide _) as [_|Hn]; [done|]. exfalso. apply Hn.
    destruct li as [|x li]; [by left|]. destruct p as [|p]; [right; by left|].
    right; right. simpl in *. apply andb_true_iff in Hli as [Hx _].
    by apply has_shape_shape.
  - rewrite Hrs. by eexists.
Qed.

(** * The channels of the input (lines 242-267) *)

Lemma shape_rank5_inv t B C T H W :
  shape t = [B; C; T; H; W] → B ≠ O ∧ C ≠ O.
Proof.
  intros Hs. destruct t as [z|[|a0 la]]; try discriminate Hs.
  destruct a0 as [z|[|x0 la0]]; try discriminate Hs.
  simpl in Hs. injection Hs as <- <- _. done.
Qed.

Lemma zeros_channels B p rest : B ≠ O → size (zeros (B :: p :: rest)) 1 = Ok p.
Proof.
  intros HB. destruct B as [|B]; [done|]. apply size_Ok. simpl.
  by rewrite length_replicate.
Qed.

(** Property X1.  For image data the input is filled up with zero channels to the
    [in_channels] of the model: a rectangular input of at most that many
    channels comes back with exactly [in_channels] channels, its own
    followed by zeros, and the batch and the three extents it had; an input
    of more channels makes the call fail. *)
Theorem image_input_zero_padded self c B C T H W :
  data_type c = Some IMAGE → shape (x c) = [B; C; T; H; W] →
  (has_shape [B; C; T; H; W] (x c) = true → Z.of_nat C ≤ in_channels (parent self) →
   ∃ x',
     reconcile_channels self c = Ok (x', mkDims B T H W) ∧
     zero_pad_channels (Z.to_nat (in_channels (parent self))) (x c) = Ok x' ∧
     shape x' = [B; Z.to_nat (in_channels (parent self)); T; H; W]) ∧
  (in_channels (parent self) < Z.of_nat C →
   reconcile_channels self c = Raise RuntimeError).
Proof.
  intros Hdt Hs. unfold reconcile_channels, zero_pad_channels. rewrite Hdt, Hs.
  cbn -[cat zeros Z.to_nat Nat.sub].
  destruct (shape_rank5_inv _ _ _ _ _ _ Hs) as [HB HC]. split.
  - intros Hrect Hle. destruct (decide _) as [|_]; [lia|].
    replace (Z.to_nat (in_channels (parent self)) - C)%nat
      with (Z.to_nat (in_channels (parent self) - Z.of_nat C)) by lia.
    destruct (cat_zeros_total (x c) B C
                (Z.to_nat (in_channels (parent self) - Z.of_nat C)) [T; H; W] Hrect)
      as (x' & Hx').
    exists x'. rewrite Hx'. split_and!; [done..|].
    destruct (cat_channels_shape _ _ _ _ _ _ Hx' Hs HC) as (Cb & Hb & ->).
    rewrite zeros_channels in Hb by done. injection Hb as <-.
    do 2 f_equal. lia.
  - intros Hlt. by destruct (decide _); [|lia].
Qed.

(** Property X2.  Outside video data the tokens that enter the control branch have
    exactly [in_channels] channels, and the batch and the extents recorded
    for the call are those of the input as it was given. *)
Theorem non_video_input_channels self c x' d :
  data_type c ≠ Some VIDEO →
  reconcile_channels self c = Ok (x', d) →
  size x' 1 = Ok (Z.to_nat (in_channels (parent self))) ∧
  ∃ B C T H W, shape (x c) = [B; C; T; H; W] ∧ d = mkDims B T H W.
Proof.
  intros Hdt H. unfold reconcile_channels in H.
  apply bind_Ok in H as (_ & _ & H).
  destruct (shape (x c)) as [|B [|C [|T [|H' [|W [|]]]]]] eqn:Hs; try discriminate H.
  apply bind_Ok in H as (x1 & Hx1 & [= <- <-]).
  split; [|by exists B, C, T, H', W].
  destruct (shape_rank5_inv _ _ _ _ _ _ Hs) as [HB HC].
  destruct (data_type c) as [[| |]|]; [|done| |].
  - destruct (decide _); [discriminate Hx1|].
    destruct (cat_channels_shape _ _ _ _ _ _ Hx1 Hs HC) as (Cb & Hb & Hs1).
    rewrite zeros_channels in Hb by done. injection Hb as <-.
    apply size_Ok. rewrite Hs1. simpl. f_equal. lia.
  - apply bind_Ok in Hx1 as (u & Hc & [= <-]). apply assert_Ok in Hc.
    apply bool_decide_eq_true in Hc. apply size_Ok. rewrite Hs. simpl. f_equal. lia.
  - apply bind_Ok in Hx1 as (u & Hc & [= <-]). apply assert_Ok in Hc.
    apply bool_decide_eq_true in Hc. apply size_Ok. rewrite Hs. simpl. f_equal. lia.
Qed.

End input_channels.

(** * The extended encoder *)

Section extended.
Context `{E : External}.

Lemma narrow_extent d n : ∀ t r k,
  narrow d 0 n t = Ok r → shape t !! d = Some k → shape r !! d = Some (n `min` k)%nat.
Proof.
  induction d as [|d IH]; intros [z|l] r k H Hk; simpl in H; try discriminate H.
  - injection H as <-. simpl in *. injection Hk as <-. by rewrite length_take.
  - apply fmap_Ok in H as (rs & Hrs & ->).
    destruct l as [|x0 l]; [discriminate Hk|]. simpl in Hk, Hrs.
    apply bind_Ok in Hrs as (r0 & Hr0 & Hrs). apply bind_Ok in Hrs as (rs' & _ & [= <-]).
    simpl. by apply (IH x0).
Qed.

(** Property X3.  The extended [forward] unpacks five extents of the input before
    anything else, and for video data insists on a condition mask: a call
    that fails either test raises without touching the model and without
    reaching the encoder above. *)
Theorem extended_forward_rejects ec w :
  (length (shape (x (ec_call ec))) ≠ 5%nat →
   VideoExtend.forward ec w = (Raise ValueError, w)) ∧
  (length (shape (x (ec_call ec))) = 5%nat →
   data_type (ec_call ec) = Some VIDEO →
   condition_video_input_mask (ec_call ec) = None →
   VideoExtend.forward ec w = (Raise AssertionError, w)).
Proof.
  unfold VideoExtend.forward. rewrite M_bind_get, M_bind_lift. unfold VideoExtend.extend_input.
  split.
  - intros Hn.
    destruct (shape (x (ec_call ec))) as [|B [|C [|T [|H' [|W [|]]]]]]; try done.
  - intros Hn Hdt Hm.
    destruct (shape (x (ec_call ec))) as [|B [|C [|T [|H' [|W [|]]]]]]; try done.
    by rewrite Hdt, Hm.
Qed.

(** Property X4.  Without a hint the extended [forward] ends in the backbone like the
    encoder above, but the backbone is handed the input with the condition
    channels appended and no condition mask, and the augmentation sigma
    among the keyword arguments. *)
Theorem extended_bypass ec w k x' :
  let c := ec_call ec in
  hint_key c = Some k →
  VideoExtend.super_kwargs ec !! k = Some PyNone →
  VideoExtend.extend_input (net w) ec = Ok x' →
  VideoExtend.forward ec w
  = (base_net_forward (base_net (base_model c))
       (mkBaseArgs x' (timesteps c) (crossattn_emb c) (crossattn_mask c) (fps c)
          (image_size c) (padding_mask c) (scalar_feature c) (data_type c) None
          (latent_condition c) (latent_condition_sigma c) (view_indices_B_T c)
          (delete k (VideoExtend.super_kwargs ec))) None, w).
Proof.
  intros c Hk Hv Hx. unfold VideoExtend.forward.
  rewrite M_bind_get, M_bind_lift, Hx.
  unfold forward, pop. rewrite M_bind_lift. cbn [hint_key kwargs VideoExtend.super_call].
  fold c. rewrite Hk, Hv. done.
Qed.

(** Property X5.  For video data the input of the encoder above is the input with
    the channels of the condition mask and of the pose appended, and that
    encoder, which is given no condition mask, appends nothing more: the
    tokens of its control branch are this input, for the batch and the
    extents of the original one. *)
Theorem condition_channels_appended_once self ec x' B C T H W :
  let c := ec_call ec in
  data_type c = Some VIDEO → shape (x c) = [B; C; T; H; W] →
  VideoExtend.extend_input self ec = Ok x' →
  ∃ m m' poses,
    condition_video_input_mask c = Some m ∧
    VideoExtend.split_condition_mask self m = Ok m' ∧
    VideoExtend.pose_inputs T (condition_video_pose ec) = Ok poses ∧
    shape x' = [B; (C + channels (m' :: poses))%nat; T; H; W] ∧
    reconcile_channels self (VideoExtend.super_call ec x') = Ok (x', mkDims B T H W).
Proof.
  intros c Hdt Hs Hx. unfold VideoExtend.extend_input in Hx. fold c in Hx.
  rewrite Hs, Hdt in Hx.
  destruct (condition_video_input_mask c) as [m|]; [|discriminate Hx].
  apply bind_Ok in Hx as (m' & Hm' & Hx). apply bind_Ok in Hx as (poses & Hp & Hx).
  exists m, m', poses.
  destruct (shape_rank5_inv _ _ _ _ _ _ Hs) as [_ HC].
  pose proof (cat_list_channels_shape _ _ _ _ _ _ Hx Hs HC) as Hs'.
  split_and!; try done.
  unfold reconcile_channels. cbn [data_type VideoExtend.super_call x condition_video_input_mask].
  fold c. rewrite Hdt, Hs'. done.
Qed.

(** Property X6.  The pose never brings more frames than the input has: what is
    appended is the pose itself when it has at most [T] frames and its first
    [T] frames otherwise, and cutting it again changes nothing. *)
Theorem pose_cut_to_input_frames T p poses :
  VideoExtend.pose_inputs T (Some p) = Ok poses →
  ∃ q tq,
    poses = [q] ∧ size q 2 = Ok tq ∧ (tq ≤ T)%nat ∧
    (∀ tp, size p 2 = Ok tp → if decide (T < tp)%nat then narrow 2 0 T p = Ok q else q = p) ∧
    VideoExtend.pose_inputs T (Some q) = Ok [q].
Proof.
  unfold VideoExtend.pose_inputs. intros H. apply bind_Ok in H as (tp & Htp & H).
  destruct (decide (T < tp)%nat) as [Hlt|Hge].
  - apply bind_Ok in H as (q & Hq & [= <-]).
    destruct (decide (5 ≤ ndim p)%nat); [|discriminate Hq].
    apply size_Ok in Htp.
    pose proof (narrow_extent _ _ _ _ _ Hq Htp) as Hsz.
    rewrite Nat.min_l in Hsz by lia.
    exists q, T. apply size_Ok in Hsz. rewrite Hsz. simpl.
    split_and!; try done.
    + intros tp' Htp'. apply size_Ok in Htp'. rewrite Htp in Htp'. injection Htp' as <-.
      by destruct (decide _).
    + by destruct (decide _); [lia|].
  - injection H as <-. exists p, tp. rewrite Htp. simpl.
    split_and!; try done; try lia.
    + intros tp' [= <-]. by destruct (decide _).
    + by destruct (decide _).
Qed.

End extended.

(** * The constructors *)

Section constructors.
Context `{E : External}.

Lemma init_layer_mask_Raise a e : init_layer_mask a = Raise e → init a = Raise e.
Proof. intros H. unfold init. by rewrite H. Qed.

(** Property X7.  A number of control blocks that is not positive, or exceeds the
    number of blocks, is refused by an assertion before the parent
    constructor runs; a positive one without [num_blocks] among the
    arguments is a [KeyError]. *)
Theorem init_checks_control_blocks a ncb :
  ia_num_control_blocks a = Some ncb →
  (ncb ≤ 0 → init a = Raise AssertionError) ∧
  (0 < ncb → ia_num_blocks a = None → init a = Raise KeyError) ∧
  (∀ N, ia_num_blocks a = Some N → N < ncb → init a = Raise AssertionError).
Proof.
  intros Hn. split_and!.
  - intros Hle. apply init_layer_mask_Raise. unfold init_layer_mask. rewrite Hn.
    by destruct (decide _); [lia|].
  - intros Hlt HN. apply init_layer_mask_Raise. unfold init_layer_mask. rewrite Hn, HN.
    by destruct (decide _); [|lia].
  - intros N HN Hlt. apply init_layer_mask_Raise. unfold init_layer_mask.
    rewrite Hn, HN. destruct (decide (0 < ncb)); [|done].
    rewrite bool_decide_eq_false_2 by lia. done.
Qed.

Lemma build_zero_blocks_short mc mask idxs :
  Exists (fun idx => mask !! idx = None) idxs →
  build_zero_blocks mc mask idxs = Raise IndexError.
Proof.
  induction idxs as [|idx idxs IH]; intros Hex; [by apply Exists_nil in Hex|].
  simpl. destruct (mask !! idx) as [[|]|] eqn:Hi; [| |done].
  - apply IH. apply Exists_cons in Hex as [Hex|Hex]; [congruence|done].
  - rewrite IH; [done|]. apply Exists_cons in Hex as [Hex|Hex]; [congruence|done].
Qed.

(** Property X8.  A layer mask with fewer entries than the model has blocks makes the
    constructor fail with an [IndexError], after the parent constructor has
    run. *)
Theorem init_short_layer_mask a mask p act :
  init_layer_mask a = Ok (Some mask) →
  super_init (new_input_channels a) a (Some mask) = Ok (p, act) →
  (length mask < num_blocks p)%nat →
  init a = Raise IndexError.
Proof.
  intros Hm Hs Hlt. unfold init. rewrite Hm. cbn [mbind result_bind].
  fold (new_input_channels a). rewrite Hs. cbn [mbind result_bind].
  rewrite build_zero_blocks_short; [done|].
  apply Exists_exists. exists (length mask). split.
  - apply elem_of_seq. lia.
  - apply lookup_ge_None. cbn [layer_mask]. lia.
Qed.

Lemma build_zero_blocks_names mc mask idxs zs :
  build_zero_blocks mc mask idxs = Ok zs →
  zs.*1 = block_name <$> filter (fun idx => mask !! idx = Some false) idxs.
Proof.
  revert zs. induction idxs as [|idx idxs IH]; intros zs H; simpl in H.
  - by injection H as <-.
  - destruct (mask !! idx) as [[|]|] eqn:Hi; [| |done].
    + rewrite filter_cons_False by congruence. by apply IH.
    + apply bind_Ok in H as (zs' & Hzs' & [= <-]).
      rewrite filter_cons_True by done. simpl. f_equal. by apply IH.
Qed.

(** Property X9.  The constructor builds one zero projection for every block index
    below [num_blocks] that the layer mask leaves unmasked, none for a masked
    one, under the name of the block and in ascending order. *)
Theorem init_zero_block_names a mk p act n :
  init_layer_mask a = Ok mk →
  super_init (new_input_channels a) a mk = Ok (p, act) →
  init a = Ok n →
  let mask := default (replicate (num_blocks p) false) mk in
  (zero_blocks n).*1
  = block_name <$> filter (fun idx => mask !! idx = Some false) (seq 0 (num_blocks p)).
Proof.
  intros Hm Hs H mask. unfold init in H. rewrite Hm in H. cbn [mbind result_bind] in H.
  fold (new_input_channels a) in H. rewrite Hs in H. cbn [mbind result_bind] in H.
  apply bind_Ok in H as (zs & Hzs & [= <-]). cbn [zero_blocks with_active].
  apply build_zero_blocks_names in Hzs. rewrite Hzs. unfold mask. by destruct mk.
Qed.

(** Property X10.  As long as initialising the weights leaves the flag alone, the
    encoder's constructor records [add_augment_sigma_embedding] as it is
    given ([False] when absent), and the extended constructor records
    [False] whatever it is given: the attribute it sets is assigned again by
    the constructor above. *)
Theorem extended_init_drops_augment_flag a :
  (∀ n, add_augment_sigma_embedding (init_weights n) = add_augment_sigma_embedding n) →
  (∀ n, init a = Ok n →
        add_augment_sigma_embedding n = default false (ia_add_augment_sigma_embedding a)) ∧
  (∀ flag n, VideoExtend.init flag a = Ok n → add_augment_sigma_embedding n = false).
Proof.
  intros Hw.
  assert (∀ a' n, init a' = Ok n →
            add_augment_sigma_embedding n
            = default false (ia_add_augment_sigma_embedding a')) as Hinit.
  { intros a' n H. unfold init in H.
    apply bind_Ok in H as (mk & _ & H). apply bind_Ok in H as ([p act] & _ & H).
    apply bind_Ok in H as (zs & _ & [= <-]).
    cbn [add_augment_sigma_embedding with_active]. by rewrite Hw. }
  split; [by apply Hinit|].
  intros flag n H. unfold VideoExtend.init in H. by apply Hinit in H.
Qed.

End constructors.

(** * Hint encoding: what is refused *)

Section refusals.
Context `{E : External}.

(** Property X11.  A hint without a channel axis, or with more channels than
    [hint_channels], is refused before anything is computed, and the model
    stays as it is. *)
Theorem encode_hint_rejects_hint hint fps pm dt w :
  (shape hint !! 1%nat = None → encode_hint hint fps pm dt w = (Raise IndexError, w)) ∧
  (∀ c, shape hint !! 1%nat = Some c → hint_channels (net w) < Z.of_nat c →
        encode_hint hint fps pm dt w = (Raise AssertionError, w)).
Proof.
  unfold encode_hint. rewrite M_bind_get, M_bind_lift. unfold size. split.
  - by intros ->.
  - intros c -> Hlt. rewrite M_bind_lift.
    rewrite bool_decide_eq_false_2 by lia. done.
Qed.

(** Property X12.  When the first block has a layout other than [THWBD] and [BTHWD],
    hint encoding never returns; once the hint is embedded, the exception is
    the [KeyError] of the lookup [self.blocks[0]], made while the message of
    the [ValueError] is put together. *)
Theorem encode_hint_unknown_layout hint fps pm dt w block0 :
  lookup_name "block0" (blocks (parent (net w))) = Ok block0 →
  x_format block0 ≠ "THWBD" → x_format block0 ≠ "BTHWD" →
  is_ok (encode_hint hint fps pm dt w).1 = false ∧
  ∀ r w', is_Some dt →
    prepare_hint_embedded_sequence hint fps pm w = (Ok r, w') →
    embed_hint hint fps pm dt w = (Raise KeyError, w').
Proof.
  intros Hb0 H1 H2.
  apply String.eqb_neq in H1, H2.
  assert (∀ h, is_ok (embed_hint h fps pm dt w).1 = false) as Hemb.
  { intros h. unfold embed_hint. rewrite M_bind_get, M_bind_lift.
    destruct (assert _); [|done]. rewrite M_bind_eq.
    pose proof (prepare_hint_world h fps pm w) as Hw.
    destruct (prepare_hint_embedded_sequence h fps pm w) as [[[t o]|e] w1]; [|done].
    simpl in Hw. subst w1. rewrite M_bind_lift, Hb0, M_bind_lift, H1, H2. done. }
  split.
  - unfold encode_hint. rewrite M_bind_get, M_bind_lift. destruct (size hint 1); [|done].
    rewrite M_bind_lift. destruct (assert _); [|done].
    rewrite M_bind_lift. destruct (pad_channels _ _); [|done]. apply Hemb.
  - intros [t o] w' [d ->] Hp.
    pose proof (prepare_hint_world hint fps pm w) as Hw. rewrite Hp in Hw.
    simpl in Hw. subst w'.
    unfold embed_hint. rewrite M_bind_get, M_bind_lift. cbn [assert bool_decide].
    rewrite bool_decide_eq_true_2 by eauto. rewrite M_bind_eq, Hp.
    rewrite M_bind_lift, Hb0, M_bind_lift, H1, H2. done.
Qed.

End refusals.

(** * The cross-attention mask (lines 272-280) *)

Section crossattn.
Context `{E : External}.

Lemma shape_tmap f t : shape (tmap f t) = shape t.
Proof.
  induction t as [z|l IH] using tensor_rect'; simpl; [done|].
  rewrite length_map. f_equal. destruct IH as [|x l Hx _]; simpl; [done|exact Hx].
Qed.

Lemma flatten_tmap f t : flatten (tmap f t) = map f (flatten t).
Proof.
  induction t as [z|l IH] using tensor_rect'; simpl; [done|].
  induction IH as [|x l Hx _ IHl]; simpl; [done|].
  by rewrite map_app, Hx, IHl.
Qed.

Lemma flatten_colon_none_none_colon rows :
  flatten (Ax (map (fun r => Ax [Ax [r]]) rows)) = flatten (Ax rows).
Proof.
  simpl. induction rows as [|r rows IH]; simpl; [done|].
  by rewrite !app_nil_r, IH.
Qed.

(** Property X13.  With [use_cross_attn_mask] on and blocks in the [THWBD] layout, the
    cross-attention inputs are only produced for a mask of a single entry
    that is false, which then is kept as it is: a mask of several entries
    has no truth value, and a single true entry sends the four-dimensional
    mask into a pattern of two axes. *)
Theorem crossattn_mask_in_THWBD self c block0 emb mask :
  use_cross_attn_mask (parent self) = true →
  lookup_name "block0" (blocks (parent self)) = Ok block0 →
  x_format block0 = "THWBD" →
  prepare_crossattn self c = Ok (emb, mask) →
  ∃ m t, crossattn_mask c = Some m ∧ flatten m = [0] ∧
         mask = Some t ∧ flatten t = [0] ∧ (4 ≤ ndim t)%nat.
Proof.
  intros Hu Hb0 Hf H. unfold prepare_crossattn in H. rewrite Hu, Hb0 in H.
  destruct (crossattn_mask c) as [m|]; [|discriminate H].
  apply bind_Ok in H as (mk & Hmk & H).
  apply bind_Ok in Hmk as (m' & Hm' & [= <-]).
  cbn [mbind result_bind] in H. rewrite Hf in H. cbn [String.eqb Ascii.eqb Bool.eqb] in H.
  apply bind_Ok in H as (emb' & _ & H). apply bind_Ok in H as (mask' & Hmask & [= <- <-]).
  apply bind_Ok in Hmask as (b & Hb & Hmask).
  unfold index_colon_none_none_colon in Hm'. destruct m as [z|rows]; [discriminate Hm'|].
  destruct (decide _) as [Hnd|]; [|discriminate Hm']. injection Hm' as <-.
  assert (4 ≤ ndim (to_bool (Ax (map (fun r => Ax [Ax [r]]) rows))))%nat as Hrank.
  { unfold ndim, to_bool in *. rewrite shape_tmap.
    destruct rows as [|r rows]; simpl in *; lia. }
  unfold truth in Hb. unfold to_bool in Hb at 1.
  rewrite flatten_tmap, flatten_colon_none_none_colon in Hb.
  destruct (flatten (Ax rows)) as [|z [|]] eqn:Hfl; try discriminate Hb.
  simpl in Hb. injection Hb as <-.
  destruct (decide (z = 0)) as [->|Hz].
  - rewrite bool_decide_eq_false_2 in Hmask by (intros Hn; by apply Hn).
    injection Hmask as <-. exists (Ax rows), (to_bool (Ax (map (fun r => Ax [Ax [r]]) rows))).
    split_and!; try done.
    unfold to_bool. by rewrite flatten_tmap, flatten_colon_none_none_colon, Hfl.
  - rewrite bool_decide_eq_true_2 in Hmask by done.
    apply fmap_Ok in Hmask as (t & Ht & _). unfold rearrange_BM_MB in Ht.
    destruct (decide _) as [Heq|]; [|discriminate Ht]. lia.
Qed.

End crossattn.

(** * The loop over the blocks: gates, names and weights *)

Section block_loop.
Context `{E : External}.

(** Property X14.  The loop reads one gate per block: from a position that
    has a gate, over more blocks than there are gates left (the gates being
    one per control block counted by the layer mask), it never returns; in
    particular not from position 0 over a table longer than the gates. *)
Theorem blocks_beyond_gates_fail self bl zb k cwi coin_flip gates d rest :
  ∀ idx x g outs,
    (idx ≤ length gates < idx + length rest)%nat →
    is_ok (run_blocks self bl zb k cwi coin_flip gates d rest idx x g outs) = false.
Proof.
  induction rest as [|[name b] rest IH]; intros idx x g outs Hb; simpl in *; [lia|].
  destruct (lookup_name "block0" bl) as [b0|]; [|done]. cbn [mbind result_bind].
  destruct (String.eqb _ _); [|done]. cbn [mbind result_bind].
  destruct (call_block k b x) as [x1|]; [|done]. cbn [mbind result_bind].
  destruct (match g with Some g0 => tadd x1 g0 | None => Ok x1 end) as [x2|]; [|done].
  cbn [mbind result_bind].
  destruct (gates !! idx) as [gate|] eqn:Hg; [|done]. cbn [mbind result_bind].
  apply lookup_lt_Some in Hg.
  destruct cwi as [cw|]; [|done]. cbn [mbind result_bind].
  destruct (contribution _ _ _ _ _ _ _ _) as [v|]; [|done]. cbn [mbind result_bind].
  destruct (accumulate _ _ _) as [outs1|]; [|done]. cbn [mbind result_bind].
  apply IH. lia.
Qed.

(** Property X15.  A block whose layout differs from the one of the first block stops
    the loop with the [KeyError] of the lookup [blocks[0]], made while the
    message of the failing assertion is put together; the block is not run. *)
Theorem block_layout_mismatch self bl zb k cwi coin_flip gates d name b rest idx x g outs
    block0 :
  lookup_name "block0" bl = Ok block0 →
  x_format block0 ≠ x_format b →
  run_blocks self bl zb k cwi coin_flip gates d ((name, b) :: rest) idx x g outs
  = Raise KeyError.
Proof.
  intros Hb0 Hne. apply String.eqb_neq in Hne. simpl. rewrite Hb0. simpl.
  by rewrite Hne.
Qed.

Lemma accumulate_dom outs name v outs' :
  accumulate outs name v = Ok outs' → dom outs' = {[name]} ∪ dom outs.
Proof.
  unfold accumulate. destruct (outs !! name) as [o|]; intros H.
  - apply bind_Ok in H as (r & _ & [= <-]). by rewrite dom_insert_L.
  - injection H as <-. by rewrite dom_insert_L.
Qed.

Lemma run_blocks_dom self bl zb k cwi coin_flip gates d rest :
  ∀ idx x g outs xf gf outs',
    run_blocks self bl zb k cwi coin_flip gates d rest idx x g outs = Ok (xf, gf, outs') →
    dom outs' = list_to_set rest.*1 ∪ dom outs.
Proof.
  induction rest as [|[name b] rest IH]; intros idx x g outs xf gf outs' H; simpl in H.
  - injection H as <- <- <-. simpl. by rewrite (left_id_L ∅ (∪)).
  - apply bind_Ok in H as (b0 & _ & H). apply bind_Ok in H as (u & _ & H).
    apply bind_Ok in H as (x1 & _ & H). apply bind_Ok in H as (x2 & _ & H).
    apply bind_Ok in H as (gate & _ & H). apply bind_Ok in H as (cw & _ & H).
    apply bind_Ok in H as (v & _ & H). apply bind_Ok in H as (outs1 & Hacc & H).
    apply IH in H. apply accumulate_dom in Hacc. rewrite H, Hacc. simpl.
    rewrite !(assoc_L (∪)). f_equal. apply (comm_L (∪)).
Qed.

Lemma run_sources_dom c l names ghs : ∀ i outs d w outs' d' w',
  hint_encoders (net w) = None → names = (blocks (parent (net w))).*1 →
  run_sources c l ghs i outs d w = (Ok (outs', d'), w') →
  dom outs' = (if ghs is [] then ∅ else list_to_set names) ∪ dom outs.
Proof.
  induction ghs as [|gh ghs IH]; intros i outs d w outs' d' w' Hnone Hnames H; simpl in H.
  - injection H as <- <- <-. by rewrite (left_id_L ∅ (∪)).
  - apply M_bind_Ok in H as ([outs1 d1] & w1 & H1 & H).
    pose proof (frozen_run_source c l i gh outs d w) as [Hfr _].
    rewrite (snd_of _ _ _ _ H1) in Hfr. unfold frozen in Hfr.
    injection Hfr as Hp _ _ _ _ _ _ _ He.
    apply IH in H; [|congruence..].
    unfold run_source in H1. apply M_bind_Ok in H1 as (si & w2 & Hsi & H1). m_inv H1.
    apply source_inputs_tables in Hsi as [(_ & Hbl & _)|(encs & e & Hen & _)];
      [|congruence].
    match goal with
    | Hr : run_blocks _ _ _ _ _ _ _ _ _ _ _ _ _ = Ok _ |- _ => apply run_blocks_dom in Hr as Hd
    end.
    rewrite H, Hd, Hbl. destruct ghs.
    + by rewrite (left_id_L ∅ (∪)).
    + rewrite (assoc_L (∪)). f_equal. by rewrite (idemp_L (∪)).
Qed.

Lemma chunk_nonempty t n d l : chunk t n d = Ok l → l ≠ [].
Proof.
  unfold chunk. intros H. apply bind_Ok in H as (sz & _ & H).
  destruct (decide (n = 0)%nat) as [|Hn]; [discriminate H|].
  destruct (decide _).
  - apply collect_Ok in H. apply Forall2_length in H. rewrite length_replicate in H.
    destruct l; [simpl in H; lia|done].
  - apply collect_Ok in H. apply Forall2_length in H.
    rewrite length_map, length_seq in H. destruct l; [simpl in H; lia|done].
Qed.

(** Property X16.  For an encoder without attached hint encoders, the control map that
    a call with a hint hands to the backbone has an entry under the name of
    every block of the encoder, and no other entry. *)
Theorem control_map_keys c fr h w outs w' :
  hint_encoders (net w) = None →
  control_outs c fr h w = (Ok outs, w') →
  dom outs = list_to_set (blocks (parent (net w))).*1.
Proof.
  intros Hnone H.
  apply control_outs_Ok in H
    as (ghs & w1 & x1 & d & emb & mask & cf & w2 & gates & w3 & d' &
        Hg & _ & _ & _ & _ & Hrs & _ & _ & [Hfr _]).
  unfold frozen in Hfr. injection Hfr as Hp _ _ _ _ _ _ _ He.
  apply (run_sources_dom _ _ (blocks (parent (net w))).*1) in Hrs; [|congruence..].
  assert (ghs ≠ []) as Hne.
  { unfold encode_guided_hints in Hg. rewrite M_bind_get, Hnone in Hg. m_inv Hg.
    destruct (decide _); [discriminate Hg|]. m_inv Hg.
    eapply chunk_nonempty; eauto. }
  rewrite Hrs, dom_empty_L. destruct ghs; [done|]. by rewrite (right_id_L ∅ (∪)).
Qed.

End block_loop.

(** * Control weights *)

Section control_weights.
Context `{E : External}.





(** Property X18.  A control weight given as a tensor with axes is read entry by entry
    along its first axis, one entry per control source: a source beyond the
    last entry cannot be run over a block table that is not empty. *)
Theorem control_weight_per_source c l i gh outs d w t n k si w1 :
  loc_control_weight l = expand_control_weight (PyTensor t) n →
  size t 0 = Ok k → (k ≤ i)%nat →
  source_inputs c l i d w = (Ok si, w1) → si_blocks si ≠ [] →
  is_ok (run_source c l i gh outs d w).1 = false.
Proof.
  intros Hl Hk Hi Hsi Hne.
  assert (loc_control_weight l !! i = None) as Hnone.
  { rewrite Hl. apply lookup_ge_None. apply size_Ok in Hk.
    destruct t as [z|ts]; [discriminate Hk|]. simpl in Hk. injection Hk as <-.
    unfold expand_control_weight. destruct (decide _); rewrite length_map; lia. }
  unfold run_source. rewrite M_bind_eq, Hsi, Hnone, M_bind_lift.
  destruct (si_blocks si) as [|[name b] rest] eqn:Hbl; [done|].
  rewrite <- Hbl at 1. simpl.
  destruct (lookup_name "block0" (si_blocks si)) as [b0|]; [|done]. cbn [mbind result_bind].
  destruct (String.eqb _ _); [|done]. cbn [mbind result_bind].
  destruct (call_block _ b _) as [x1|]; [|done]. cbn [mbind result_bind].
  destruct (tadd x1 gh) as [x2|]; [|done]. cbn [mbind result_bind].
  by destruct (loc_gates l !! 0%nat).
Qed.

End control_weights.

(** * What a call with a hint needs *)

Section needs.
Context `{E : External}.

(** Property X19.  The scalar feature is not supported by the control branch: no
    control source can be run in a call that brings one. *)
Theorem scalar_feature_unsupported c l i gh outs d w s :
  scalar_feature c = Some s →
  is_ok (run_source c l i gh outs d w).1 = false.
Proof.
  intros Hs. unfold run_source. rewrite M_bind_eq.
  destruct (source_inputs c l i d w) as [[si|e] w1] eqn:Hsi; [|done].
  exfalso. unfold source_inputs in Hsi. rewrite Hs in Hsi. m_inv Hsi.
  match goal with
  | Hr : raise _ _ = (Ok _, _) |- _ => discriminate Hr
  end.
Qed.

Lemma index_true_none l : Forall (fun b => b = false) l → index_true l = Raise ValueError.
Proof.
  induction 1 as [|b l -> _ IH]; simpl; [done|]. by rewrite IH.
Qed.

(** Property X20.  A model whose layer mask has no [True] entry, as the constructor
    leaves it when neither [num_control_blocks] nor [layer_mask] is given,
    cannot serve a call with a hint: [forward] never returns. *)
Theorem hint_needs_a_masked_block c w k h :
  Forall (fun b => b = false) (layer_mask (net w)) →
  hint_key c = Some k → kwargs c !! k = Some (PyTensor h) →
  is_ok (forward c w).1 = false.
Proof.
  intros Hmask Hk Hv. unfold forward, pop. rewrite M_bind_lift, Hk, Hv.
  cbn [mbind result_bind]. rewrite M_bind_eq.
  destruct (control_outs c _ h w) as [[outs|e] w'] eqn:H; [|done]. exfalso.
  apply control_outs_Ok in H
    as (ghs & w1 & x1 & d & emb & mask & cf & w2 & gates & w3 & d' &
        _ & _ & _ & _ & Hcg & _ & _ & [Hfr _] & _).
  unfold frozen in Hfr. injection Hfr as _ _ _ _ _ Hlm _ _ _.
  unfold control_gates in Hcg. rewrite M_bind_get, M_bind_lift, Hlm in Hcg.
  by rewrite (index_true_none _ Hmask) in Hcg.
Qed.

(** Property X21.  Without attached hint encoders the guided hint is cut into
    [hint.shape[0] // x.shape[0]] pieces: a hint with a smaller batch than
    the input asks for zero pieces and is refused with a [RuntimeError],
    after it has been encoded. *)
Theorem hint_batch_below_input_batch c hint w g w1 hb xb :
  hint_encoders (net w) = None →
  encode_hint hint (fps c) (padding_mask c) (data_type c) w = (Ok g, w1) →
  size hint 0 = Ok hb → size (x c) 0 = Ok xb → (hb < xb)%nat → (4 ≤ ndim g)%nat →
  encode_guided_hints c hint w = (Raise RuntimeError, w).
Proof.
  intros Hnone Hg Hhb Hxb Hlt Hnd.
  pose proof (encode_hint_world hint (fps c) (padding_mask c) (data_type c) w) as Hw.
  rewrite Hg in Hw. simpl in Hw. subst w1.
  unfold encode_guided_hints. rewrite M_bind_get, Hnone, M_bind_eq, Hg.
  rewrite M_bind_lift, Hhb, M_bind_lift, Hxb.
  destruct (decide _); [lia|]. rewrite M_bind_lift.
  rewrite Nat.div_small by done. unfold chunk, size.
  destruct (shape g !! 3%nat) as [sz|] eqn:Hsz; [done|].
  apply lookup_ge_None in Hsz. unfold ndim in Hnd. lia.
Qed.

Lemma encode_sources_missing c encs hint idxs w :
  Exists (fun i => encs !! i = None) idxs →
  is_ok (encode_sources c encs hint idxs w).1 = false.
Proof.
  revert w. induction idxs as [|i idxs IH]; intros w Hex; [by apply Exists_nil in Hex|].
  rewrite encode_sources_cons. rewrite M_bind_lift.
  destruct (encs !! i) as [e|] eqn:Hi; [|done].
  apply Exists_cons in Hex as [Hex|Hex]; [congruence|].
  rewrite M_bind_modify, M_bind_lift. destruct (select 1 i hint) as [hi|]; [|done].
  rewrite M_bind_eq. destruct (encode_hint _ _ _ _ _) as [[g|?] w1]; [|done].
  rewrite M_bind_eq. specialize (IH w1 Hex).
  by destruct (encode_sources c encs hint idxs w1) as [[gs|?] w2].
Qed.

(** Property X22.  With hint encoders attached, the hint brings one control source per
    entry of its axis 1 and each one needs an encoder of its own: a hint
    with more sources than there are encoders is not encoded. *)
Theorem sources_beyond_encoders c hint w encs n :
  hint_encoders (net w) = Some encs →
  size hint 1 = Ok n → (length encs < n)%nat →
  is_ok (encode_guided_hints c hint w).1 = false.
Proof.
  intros Henc Hn Hlt. unfold encode_guided_hints.
  rewrite M_bind_get, Henc, M_bind_lift, Hn.
  apply encode_sources_missing. apply Exists_exists. exists (length encs). split.
  - apply elem_of_seq. lia.
  - by apply lookup_ge_None.
Qed.

(** Property X23.  What is logged as [timesteps_B_D] is the tensor the affine embedding
    is computed in: with additional timestamp channels the additional
    embedding is added to it in place, so that the two logged entries
    [timesteps_B_D] and [affline_emb_B_D] always hold the same tensor, the
    embedding handed to the norm. *)
Theorem affline_log_aliasing self c x0 timesteps_B_D emb info :
  affline_embedding self c x0 timesteps_B_D = Ok (emb, info) →
  info !! "timesteps_B_D" = Some emb ∧ info !! "affline_emb_B_D" = Some emb ∧
  (additional_timestamp_channels (parent self) = false → emb = timesteps_B_D) ∧
  (additional_timestamp_channels (parent self) = true →
   ∃ cond, info !! "additional_cond_B_D" = Some cond ∧ iadd timesteps_B_D cond = Ok emb).
Proof.
  unfold affline_embedding. intros H.
  apply bind_Ok in H as ([emb0 info0] & H0 & [= <- <-]).
  destruct (additional_timestamp_channels (parent self)).
  - destruct (image_size c) as [sz|]; [|discriminate H0].
    apply bind_Ok in H0 as (bs & _ & H0). apply bind_Ok in H0 as (h & _ & H0).
    apply bind_Ok in H0 as (w0 & _ & H0). apply bind_Ok in H0 as (oh & _ & H0).
    apply bind_Ok in H0 as (ow & _ & H0). apply bind_Ok in H0 as (cond & _ & H0).
    apply bind_Ok in H0 as (e & He & [= <- <-]).
    split_and!; [done..| |].
    + done.
    + intros _. by exists cond.
  - injection H0 as <- <-. split_and!; done.
Qed.

End needs.

(** * Gates drawn during training, weight maps and the hint patch embedder *)

Section more.
Context `{E : External}.

Lemma map_seq_const {A} (f : nat → A) a : ∀ len s,
  (∀ i, (s ≤ i < s + len)%nat → f i = a) → map f (seq s len) = replicate len a.
Proof.
  induction len as [|len IH]; intros s Hf; simpl; [done|].
  rewrite Hf by lia. f_equal. apply IH. intros i Hi. apply Hf. lia.
Qed.

Lemma prefix_gates k n :
  (k ≤ n)%nat →
  map (fun i => Z.of_nat i <? Z.of_nat k) (seq 0 n)
  = replicate k true ++ replicate (n - k) false.
Proof.
  intros Hk. replace n with (k + (n - k))%nat at 1 by lia.
  rewrite seq_app, map_app. f_equal.
  - apply map_seq_const. intros i Hi. apply Z.ltb_lt. lia.
  - apply map_seq_const. intros i Hi. apply Z.ltb_ge. lia.
Qed.

(** Property X24.  During training with random dropping of control blocks, the gates
    are open for a prefix of the control blocks and closed for the others;
    the length of the prefix is one more than a draw of numpy's generator
    below the number of control blocks, so that the first control block is
    always in; the supplied [num_layers_to_use] plays no part, and the draw is
    the only one taken. *)
Theorem training_gates_random_prefix c w gates w' :
  random_drop_control_blocks (net w) = true →
  control_gates true c w = (Ok gates, w') →
  ∃ n,
    index_true (layer_mask (net w)) = Ok n ∧ n ≠ O ∧
    let r := (numpy_integers (numpy_rng w) `mod` n)%nat in
    gates = replicate (S r) true ++ replicate (n - S r) false ∧
    w' = mkWorld (net w) (grad_enabled w) (torch_rng w) (numpy_rng w + 1).
Proof.
  intros Hrd H. unfold control_gates in H. rewrite M_bind_get, M_bind_lift, Hrd in H.
  destruct (index_true _) as [n|]; [|discriminate H].
  rewrite M_bind_eq in H. rewrite M_bind_eq in H. unfold np_random_randint in H.
  destruct (decide (n = O)) as [|Hn]; [discriminate H|].
  cbn in H. injection H as <- <-.
  exists n. split; [done|]. split; [done|]. cbv zeta. split; [|done].
  pose proof (Nat.mod_upper_bound (numpy_integers (numpy_rng w)) n Hn) as Hlt.
  replace (Z.of_nat (numpy_integers (numpy_rng w) `mod` n) + 1)
    with (Z.of_nat (S (numpy_integers (numpy_rng w) `mod` n))) by lia.
  apply prefix_gates. lia.
Qed.

Lemma build_rows n s data : ∃ l, build (n :: s) data = Ax l ∧ length l = n.
Proof. eexists. split; [reflexivity|]. by rewrite length_map, length_seq. Qed.

Lemma build_rank5 n B data :
  n ≠ O → B ≠ O → shape (build [n; 1; 1; B; 1]%nat data) = [n; 1; 1; B; 1]%nat.
Proof.
  intros Hn HB. destruct n as [|n]; [done|]. destruct B as [|B]; [done|].
  cbn -[Nat.mul prod drop]. rewrite !length_map, !length_seq. done.
Qed.

(** Property X25.  A spatial-temporal weight map is laid out as [T*H*W, 1, 1, B, 1].
    Without sequence parallelism it meets the projected tokens in their
    [T, H, W, B, D] layout, so that the contribution of a block is only
    computed when the first extent of the tokens is [T*H*W] or 1, or
    [T*H*W] is 1. *)
Theorem weight_map_needs_flat_tokens self zb name x0 wmap coin_flip gate d v z f
    T' H' W' B' D' :
  sequence_parallel (parent self) = false →
  (2 ≤ ndim wmap)%nat →
  (dT d * dH d * dW d ≠ 0)%nat → dB d ≠ O →
  lookup_name name zb = Ok z → linear z x0 = Ok f →
  shape f = [T'; H'; W'; B'; D'] →
  contribution self zb name x0 (CwTensor wmap) coin_flip gate d = Ok v →
  T' = (dT d * dH d * dW d)%nat ∨ T' = 1%nat ∨ (dT d * dH d * dW d = 1)%nat.
Proof.
  intros Hsp Hnd Hn HB Hz Hf Hs H. unfold contribution in H.
  destruct (decide _) as [|_]; [lia|]. rewrite Hz in H. cbn [mbind result_bind] in H.
  rewrite Hf in H. cbn [mbind result_bind] in H.
  apply bind_Ok in H as (b0 & _ & H). destruct (String.eqb _ _); [|discriminate H].
  apply bind_Ok in H as (wm & Hwm & H). apply bind_Ok in H as (v1 & Hv1 & _).
  unfold weight_map_tokens in Hwm. rewrite Hsp in Hwm.
  apply bind_Ok in Hwm as (w1 & _ & Hwm). apply bind_Ok in Hwm as (w2 & _ & Hwm).
  apply bind_Ok in Hwm as (w3 & Hw3 & [= <-]).
  unfold view in Hw3. destruct (decide _); [|discriminate Hw3].
  pose proof (build_rank5 (dT d * dH d * dW d) (dB d) (flatten w2) Hn HB) as Hsw.
  destruct (build_rows (dT d * dH d * dW d) [1; 1; dB d; 1]%nat (flatten w2))
    as (lw & Hlw & Hlen).
  rewrite Hlw in Hw3, Hsw. injection Hw3 as <-.
  unfold tmul, bop, ndim in Hv1. rewrite Hs, Hsw in Hv1.
  destruct (decide (_ ≤ _)%nat) as [|Hr]; [|exfalso; apply Hr; simpl; lia].
  cbn [length Nat.sub lift_right] in Hv1.
  destruct f as [?|lf]; [discriminate Hs|]. simpl in Hs. injection Hs as HT Htl.
  cbn [bzip] in Hv1. destruct (decide (length lf = length lw)) as [Heq|Hne]; [left; lia|].
  destruct lf as [|f0 [|f1 lf]]; [discriminate Htl | right; left; by simpl in HT |].
  destruct lw as [|w0 [|w1' lw]]; [simpl in Hlen; lia | right; right; by simpl in Hlen |].
  discriminate Hv1.
Qed.




End more.

(** * The further properties on the small instance *)

Lemma image_input_zero_padded_witness :
  reconcile_channels demo_image_net
    (demo_call_on demo_input (Some IMAGE) (PyNum 1) None None None None demo_with_hint)
  = Ok (Ax [Ax [Ax [Ax [Ax [Sc 7; Sc 7]]]; Ax [Ax [Ax [Sc 0; Sc 0]]];
                Ax [Ax [Ax [Sc 0; Sc 0]]]]], mkDims 1 1 1 2).
Proof.
  destruct (image_input_zero_padded demo_image_net
              (demo_call_on demo_input (Some IMAGE) (PyNum 1) None None None None
                 demo_with_hint) 1 1 1 1 2 eq_refl eq_refl) as [H _].
  destruct (H eq_refl ltac:(vm_compute; discriminate)) as (x' & Hr & Hp & _).
  rewrite Hr. vm_compute in Hp. injection Hp as <-. reflexivity.
Defined.

Lemma non_video_input_channels_witness :
  size demo_input 1 = Ok (Z.to_nat (in_channels (parent demo_net))).
Proof.
  pose (c := demo_call_on demo_input (Some MIX) (PyNum 1) None None None None
               demo_with_hint).
  assert (data_type c ≠ Some VIDEO) as Hdt by discriminate.
  assert (reconcile_channels demo_net c = Ok (demo_input, mkDims 1 1 1 2)) as Hr
    by (vm_compute; reflexivity).
  exact (proj1 (non_video_input_channels demo_net c _ _ Hdt Hr)).
Defined.

Lemma extended_forward_rejects_witness :
  VideoExtend.forward (demo_extend_call None None demo_with_hint) (demo_world demo_net false)
  = (Raise AssertionError, demo_world demo_net false).
Proof.
  apply (proj2 (extended_forward_rejects (demo_extend_call None None demo_with_hint)
                  (demo_world demo_net false))); reflexivity.
Defined.

Lemma extended_bypass_witness :
  VideoExtend.forward (demo_extend_call (Some demo_mask) None demo_without_hint)
    (demo_world demo_net false)
  = (Ok demo_output, demo_world demo_net false).
Proof.
  rewrite (extended_bypass (demo_extend_call (Some demo_mask) None demo_without_hint)
             (demo_world demo_net false) "hint"
             (Ax [Ax [Ax [Ax [Ax [Sc 7; Sc 7]]]; Ax [Ax [Ax [Sc 1; Sc 1]]]]])
             eq_refl ltac:(vm_compute; reflexivity) ltac:(vm_compute; reflexivity)).
  vm_compute. reflexivity.
Defined.

Lemma condition_channels_appended_once_witness :
  ∃ x',
    VideoExtend.extend_input demo_net
      (demo_extend_call (Some demo_mask) (Some demo_pose) demo_with_hint) = Ok x' ∧
    shape x' = [1; 3; 1; 1; 2]%nat ∧
    reconcile_channels demo_net
      (VideoExtend.super_call
         (demo_extend_call (Some demo_mask) (Some demo_pose) demo_with_hint) x')
    = Ok (x', mkDims 1 1 1 2).
Proof.
  destruct (VideoExtend.extend_input demo_net
              (demo_extend_call (Some demo_mask) (Some demo_pose) demo_with_hint))
    as [x'|e] eqn:Hx; [|vm_compute in Hx; discriminate Hx].
  destruct (condition_channels_appended_once demo_net
              (demo_extend_call (Some demo_mask) (Some demo_pose) demo_with_hint)
              x' 1 1 1 1 2 eq_refl eq_refl Hx)
    as (m & m' & poses & Hm & Hm' & Hp & Hs & Hr).
  exists x'. split_and!; [done| |done].
  rewrite Hs. injection Hm as <-. vm_compute in Hm'. injection Hm' as <-.
  vm_compute in Hp. injection Hp as <-. reflexivity.
Defined.

Lemma pose_cut_to_input_frames_witness :
  ∃ q,
    VideoExtend.pose_inputs 1 (Some demo_pose) = Ok [q] ∧
    narrow 2 0 1 demo_pose = Ok q ∧ size q 2 = Ok 1%nat.
Proof.
  destruct (VideoExtend.pose_inputs 1 (Some demo_pose)) as [poses|e] eqn:H;
    [|vm_compute in H; discriminate H].
  destruct (pose_cut_to_input_frames 1 demo_pose poses H)
    as (q & tq & -> & Hq & Hle & Hcut & _).
  specialize (Hcut 3%nat eq_refl). cbn [decide] in Hcut.
  exists q. split_and!; [done|exact Hcut|].
  vm_compute in Hcut. injection Hcut as <-. reflexivity.
Defined.

Lemma init_checks_control_blocks_witness : init demo_excess_args = Raise AssertionError.
Proof.
  destruct (init_checks_control_blocks demo_excess_args 5 eq_refl) as (_ & _ & H).
  apply (H 3 eq_refl). lia.
Defined.

Lemma init_short_layer_mask_witness : init demo_short_mask_args = Raise IndexError.
Proof.
  eapply (init_short_layer_mask demo_short_mask_args [false]); [reflexivity..|].
  simpl. lia.
Defined.

Lemma init_zero_block_names_witness : (zero_blocks demo_net).*1 = ["block0"; "block1"].
Proof.
  erewrite (init_zero_block_names demo_init_args); [|reflexivity..|exact demo_net_init].
  reflexivity.
Defined.

Lemma extended_init_drops_augment_flag_witness :
  add_augment_sigma_embedding demo_default_net = true ∧
  ∃ n, VideoExtend.init true demo_default_args = Ok n ∧
       add_augment_sigma_embedding n = false.
Proof.
  destruct (@extended_init_drops_augment_flag demo_external demo_default_args
              (fun n => eq_refl))
    as [Hinit Hext].
  split.
  - apply (Hinit demo_default_net). reflexivity.
  - destruct (VideoExtend.init true demo_default_args) as [n|e] eqn:H;
      [|vm_compute in H; discriminate H].
    exists n. split; [done|]. by apply (Hext true).
Defined.

Lemma encode_hint_rejects_hint_witness :
  encode_hint demo_wide_hint None None (Some VIDEO) (demo_world demo_net false)
  = (Raise AssertionError, demo_world demo_net false).
Proof.
  apply (proj2 (encode_hint_rejects_hint demo_wide_hint None None (Some VIDEO)
                  (demo_world demo_net false)) 3%nat); [reflexivity|].
  vm_compute. reflexivity.
Defined.

Lemma encode_hint_unknown_layout_witness :
  is_ok (encode_hint demo_hint None None (Some VIDEO)
           (demo_world (demo_variant_net "XYZ" false false) false)).1 = false ∧
  embed_hint demo_hint None None (Some VIDEO)
    (demo_world (demo_variant_net "XYZ" false false) false)
  = (Raise KeyError, demo_world (demo_variant_net "XYZ" false false) false).
Proof.
  destruct (encode_hint_unknown_layout demo_hint None None (Some VIDEO)
              (demo_world (demo_variant_net "XYZ" false false) false)
              (mkBlock 10%nat "XYZ") eq_refl ltac:(discriminate) ltac:(discriminate))
    as [Hnever Hkey].
  split; [exact Hnever|].
  destruct (prepare_hint_embedded_sequence demo_hint None None
              (demo_world (demo_variant_net "XYZ" false false) false))
    as [[r|e] w'] eqn:H; [|vm_compute in H; discriminate H].
  rewrite (Hkey r w' ltac:(eauto) eq_refl).
  pose proof (prepare_hint_world demo_hint None None
                (demo_world (demo_variant_net "XYZ" false false) false)) as Hw.
  rewrite H in Hw. simpl in Hw. by rewrite Hw.
Defined.

Lemma crossattn_mask_in_THWBD_witness :
  ∃ emb t,
    prepare_crossattn (demo_variant_net "THWBD" true false)
      (demo_call_on demo_input (Some VIDEO) (PyNum 1) (Some (Ax [Ax [Sc 0]])) None None
         None demo_with_hint)
    = Ok (emb, Some t) ∧ flatten t = [0].
Proof.
  destruct (prepare_crossattn (demo_variant_net "THWBD" true false)
              (demo_call_on demo_input (Some VIDEO) (PyNum 1) (Some (Ax [Ax [Sc 0]]))
                 None None None demo_with_hint))
    as [[emb mask]|e] eqn:H; [|vm_compute in H; discriminate H].
  destruct (crossattn_mask_in_THWBD (demo_variant_net "THWBD" true false) _
              (mkBlock 10%nat "THWBD") emb mask eq_refl eq_refl eq_refl H)
    as (m & t & _ & _ & -> & Ht & _).
  by exists emb, t.
Defined.

Lemma blocks_beyond_gates_fail_witness :
  is_ok (run_blocks demo_trained_net (blocks (parent demo_trained_net))
           (zero_blocks demo_trained_net) demo_block_ctx (Ok (CwNum 1)) CoinOne [true]
           (mkDims 1 1 1 2) (blocks (parent demo_trained_net)) 0 demo_block_tokens None ∅)
  = false.
Proof. apply blocks_beyond_gates_fail. vm_compute. lia. Defined.

Lemma block_layout_mismatch_witness :
  run_blocks demo_trained_net
    [("block0", mkBlock 10%nat "THWBD"); ("block1", mkBlock 11%nat "BTHWD")]
    (zero_blocks demo_trained_net) demo_block_ctx (Ok (CwNum 1)) CoinOne [true; true]
    (mkDims 1 1 1 2) [("block1", mkBlock 11%nat "BTHWD")] 1 demo_block_tokens None ∅
  = Raise KeyError.
Proof.
  apply (block_layout_mismatch _ _ _ _ _ _ _ _ _ _ _ _ _ _ _ (mkBlock 10%nat "THWBD"));
    [reflexivity|discriminate].
Defined.

Lemma control_map_keys_witness :
  ∃ outs w',
    control_outs (demo_hint_call demo_hint (-1)) PyNone demo_hint
      (demo_world demo_trained_net false) = (Ok outs, w') ∧
    dom outs = list_to_set ["block0"; "block1"].
Proof.
  destruct (control_outs (demo_hint_call demo_hint (-1)) PyNone demo_hint
              (demo_world demo_trained_net false)) as [[outs|e] w'] eqn:H;
    [|vm_compute in H; discriminate H].
  exists outs, w'. split; [done|].
  exact (control_map_keys _ _ _ (demo_world demo_trained_net false) _ _ eq_refl H).
Defined.


Lemma control_weight_per_source_witness :
  is_ok (run_source (demo_hint_call demo_hint (-1))
           (mkLocals (zeros [1; 1; 1; 1; 2]%nat) (zeros [1; 2; 2]%nat) None PyNone CoinOne
              [true; true] (expand_control_weight (PyTensor (Ax [Sc 1])) 2))
           1 demo_guided_hint ∅ (mkDims 1 1 1 2) (demo_world demo_trained_net false)).1
  = false.
Proof.
  destruct (source_inputs (demo_hint_call demo_hint (-1))
              (mkLocals (zeros [1; 1; 1; 1; 2]%nat) (zeros [1; 2; 2]%nat) None PyNone
                 CoinOne [true; true] (expand_control_weight (PyTensor (Ax [Sc 1])) 2))
              1 (mkDims 1 1 1 2) (demo_world demo_trained_net false))
    as [[si|e] w1] eqn:Hsi; [|vm_compute in Hsi; discriminate Hsi].
  apply (control_weight_per_source (demo_hint_call demo_hint (-1))
           (mkLocals (zeros [1; 1; 1; 1; 2]%nat) (zeros [1; 2; 2]%nat) None PyNone CoinOne
              [true; true] (expand_control_weight (PyTensor (Ax [Sc 1])) 2))
           1 _ _ _ _ (Ax [Sc 1]) 2%nat 1%nat si w1 eq_refl eq_refl (le_n 1) Hsi).
  vm_compute in Hsi. injection Hsi as <- _. discriminate.
Defined.

Lemma scalar_feature_unsupported_witness :
  is_ok (run_source
           (demo_call_on (zeros [1; 1; 1; 1; 2]%nat) (Some VIDEO) (PyNum 1) None None
              (Some (Sc 1)) None demo_with_hint)
           demo_locals 0 demo_guided_hint ∅ (mkDims 1 1 1 2)
           (demo_world demo_trained_net false)).1
  = false.
Proof.
  apply (scalar_feature_unsupported
           (demo_call_on (zeros [1; 1; 1; 1; 2]%nat) (Some VIDEO) (PyNum 1) None None
              (Some (Sc 1)) None demo_with_hint) _ _ _ _ _ _ (Sc 1)).
  reflexivity.
Defined.

Lemma hint_needs_a_masked_block_witness :
  layer_mask demo_default_net = [false; false] ∧
  is_ok (forward (demo_hint_call demo_hint (-1)) (demo_world demo_default_net false)).1
  = false.
Proof.
  split; [reflexivity|].
  apply (hint_needs_a_masked_block (demo_hint_call demo_hint (-1))
           (demo_world demo_default_net false) "hint" demo_hint);
    [|reflexivity|vm_compute; reflexivity].
  change (Forall (fun b => b = false) [false; false]). by repeat constructor.
Defined.

Lemma hint_batch_below_input_batch_witness :
  encode_guided_hints
    (demo_call_on (zeros [2; 1; 1; 1; 2]%nat) (Some VIDEO) (PyNum 1) None None None None
       demo_with_hint)
    demo_hint (demo_world demo_net false)
  = (Raise RuntimeError, demo_world demo_net false).
Proof.
  destruct (encode_hint demo_hint None None (Some VIDEO) (demo_world demo_net false))
    as [[g|e] w1] eqn:Hg; [|vm_compute in Hg; discriminate Hg].
  apply (hint_batch_below_input_batch
           (demo_call_on (zeros [2; 1; 1; 1; 2]%nat) (Some VIDEO) (PyNum 1) None None None
              None demo_with_hint)
           demo_hint (demo_world demo_net false) g w1 1%nat 2%nat eq_refl Hg eq_refl eq_refl);
    [lia|].
  vm_compute in Hg. injection Hg as <- _. vm_compute. lia.
Defined.

Lemma sources_beyond_encoders_witness :
  is_ok (encode_guided_hints (demo_hint_call demo_triple_hint (-1)) demo_triple_hint
           (demo_world demo_multi_net false)).1 = false.
Proof.
  apply (sources_beyond_encoders _ demo_triple_hint (demo_world demo_multi_net false)
           [demo_encoder 20%nat; demo_encoder 30%nat] 3%nat);
    [reflexivity..|].
  simpl. lia.
Defined.

Lemma affline_log_aliasing_witness :
  ∃ emb info,
    affline_embedding (demo_variant_net "THWBD" false true)
      (demo_call_on demo_input (Some VIDEO) (PyNum 1) None
         (Some (Ax [Ax [Sc 1; Sc 2; Sc 3; Sc 4]])) None None demo_with_hint)
      demo_input (Ax [Ax [Sc 5]]) = Ok (emb, info) ∧
    info !! "timesteps_B_D" = Some emb ∧ info !! "affline_emb_B_D" = Some emb.
Proof.
  destruct (affline_embedding (demo_variant_net "THWBD" false true)
              (demo_call_on demo_input (Some VIDEO) (PyNum 1) None
                 (Some (Ax [Ax [Sc 1; Sc 2; Sc 3; Sc 4]])) None None demo_with_hint)
              demo_input (Ax [Ax [Sc 5]])) as [[emb info]|e] eqn:H;
    [|vm_compute in H; discriminate H].
  destruct (affline_log_aliasing _ _ _ _ _ _ H) as (H1 & H2 & _).
  by exists emb, info.
Defined.

Lemma weight_map_needs_flat_tokens_witness :
  1%nat = (2 * 1 * 1)%nat ∨ 1%nat = 1%nat ∨ (2 * 1 * 1)%nat = 1%nat.
Proof.
  destruct (linear (mkLinear 2 2 [[1; 1]; [1; 1]] [1; 1]) demo_block_tokens)
    as [f|e] eqn:Hf; [|vm_compute in Hf; discriminate Hf].
  destruct (contribution demo_trained_net (zero_blocks demo_trained_net) "block0"
              demo_block_tokens (CwTensor demo_pixel_weight_map) CoinOne true
              (mkDims 1 2 1 1)) as [v|e] eqn:Hv; [|vm_compute in Hv; discriminate Hv].
  apply (weight_map_needs_flat_tokens demo_trained_net (zero_blocks demo_trained_net)
           "block0" demo_block_tokens demo_pixel_weight_map CoinOne true (mkDims 1 2 1 1)
           v (mkLinear 2 2 [[1; 1]; [1; 1]] [1; 1]) f 1 1 2 1 2);
    [reflexivity|vm_compute; lia|discriminate|discriminate|reflexivity|exact Hf| |exact Hv].
  vm_compute in Hf. injection Hf as <-. reflexivity.
Defined.

Lemma training_gates_random_prefix_witness :
  control_gates true (demo_hint_call demo_hint 1) (demo_world demo_gated_net true)
  = (Ok [true; false], mkWorld demo_gated_net true 0 1).
Proof.
  destruct (control_gates true (demo_hint_call demo_hint 1) (demo_world demo_gated_net true))
    as [[gates|e] w'] eqn:H; [|vm_compute in H; discriminate H].
  destruct (training_gates_random_prefix (demo_hint_call demo_hint 1)
              (demo_world demo_gated_net true) _ _ eq_refl H) as (n & Hn & _ & Hg & Hw).
  vm_compute in Hn. injection Hn as <-. rewrite Hg, Hw. reflexivity.
Defined.

